(** * CherryStudio prompt compiler: compile.py, validate.py and fix.py

    A shallow embedding of the three scripts under
    [skills/compiling-prompts/scripts] and the properties of the compiler,
    the validator and the fixer that the specification states.

    Python values are an inductive type, a Python [str] is the list of its
    code points, a [dict] is an association list in insertion order, and a
    function that may raise returns a [result]. *)

From Stdlib Require Import ZArith Lia Bool String Ascii.
From Stdlib Require Import DecimalString DecimalNat SpecFloat FinFun List.
Import ListNotations.
Local Open Scope Z_scope.

Set Implicit Arguments.
Set Warnings "-register-all".

(** ** Strings *)

(** A Python [str]: the sequence of its Unicode code points. *)
Definition str := list Z.

(** An ASCII literal of the source as a [str]. *)
Definition lit (s : string) : str :=
  map (fun a => Z.of_N (N_of_ascii a)) (list_ascii_of_string s).

Fixpoint str_eqb (a b : str) : bool :=
  match a, b with
  | [], [] => true
  | x :: a', y :: b' => (x =? y) && str_eqb a' b'
  | _, _ => false
  end.

(** [Py_UNICODE_ISSPACE]: the code points [str.strip()] removes and the
    class [\s] of [re] matches on a [str]. *)
Definition isspace (c : Z) : bool :=
  ((9 <=? c) && (c <=? 13)) || ((28 <=? c) && (c <=? 32))
  || (c =? 133) || (c =? 160) || (c =? 5760)
  || ((8192 <=? c) && (c <=? 8202))
  || (c =? 8232) || (c =? 8233) || (c =? 8239) || (c =? 8287) || (c =? 12288).

Definition NL : Z := 10.

Fixpoint lstrip (s : str) : str :=
  match s with
  | c :: s' => if isspace c then lstrip s' else s
  | [] => []
  end.

Definition rstrip (s : str) : str := rev (lstrip (rev s)).

(** [s.strip()] *)
Definition strip (s : str) : str := rstrip (lstrip s).

Fixpoint lstrip_char (q : Z) (s : str) : str :=
  match s with
  | c :: s' => if c =? q then lstrip_char q s' else s
  | [] => []
  end.

(** [s.strip(q)] for a one-character [q] *)
Definition strip_char (q : Z) (s : str) : str :=
  rev (lstrip_char q (rev (lstrip_char q s))).

(** [s.startswith(p)] *)
Fixpoint startswith (p s : str) : bool :=
  match p, s with
  | [], _ => true
  | x :: p', y :: s' => (x =? y) && startswith p' s'
  | _ :: _, [] => false
  end.

(** [s.endswith(p)] *)
Definition endswith (p s : str) : bool := startswith (rev p) (rev s).

(** [sub in s] *)
Fixpoint contains (sub s : str) : bool :=
  startswith sub s ||
  match s with
  | [] => false
  | _ :: s' => contains sub s'
  end.

(** [s.split(sep, 1)] for a one-character [sep] that occurs in [s]: the text
    before the first [sep] and the text after it; [None] when [sep] does not
    occur (the list then has one element). *)
Fixpoint split1 (sep : Z) (s : str) : option (str * str) :=
  match s with
  | [] => None
  | c :: s' =>
      if c =? sep then Some ([], s')
      else match split1 sep s' with
           | Some (a, b) => Some (c :: a, b)
           | None => None
           end
  end.

(** [s.split(sep)] for a one-character [sep] *)
Fixpoint split (sep : Z) (s : str) : list str :=
  match s with
  | [] => [[]]
  | c :: s' =>
      if c =? sep then [] :: split sep s'
      else match split sep s' with
           | l :: ls => (c :: l) :: ls
           | [] => [[c]]
           end
  end.

(** [s[1:-1]] *)
Definition slice_1_m1 (s : str) : str := removelast (tl s).

(** [str(n)] for a natural number, in decimal *)
Definition str_of_nat (n : nat) : str :=
  lit (NilZero.string_of_uint (Nat.to_uint n)).

(** [str(z)] for an [int] *)
Definition str_of_Z (z : Z) : str :=
  if z <? 0 then lit "-" ++ str_of_nat (Z.to_nat (- z))
  else str_of_nat (Z.to_nat z).

(** ** Values and exceptions *)

(** The values [json.loads] builds, which are also the values the
    frontmatter parser builds. A [dict] keeps its keys in insertion order. *)
Inductive pyval :=
| PNone
| PBool (b : bool)
| PInt (z : Z)
| PFloat (f : spec_float)
| PStr (s : str)
| PList (l : list pyval)
| PDict (d : list (str * pyval)).

Inductive exn :=
  TypeError | AttributeError | KeyError | IndexError | ValueError
  | UnicodeEncodeError.

Inductive result (A : Type) :=
| Ok (a : A)
| Raise (e : exn).
Arguments Ok {A} a.
Arguments Raise {A} e.

Definition bind {A B} (m : result A) (k : A -> result B) : result B :=
  match m with
  | Ok a => k a
  | Raise e => Raise e
  end.

Notation "x <- m ;; k" := (bind m (fun x => k))
  (at level 61, m at next level, right associativity).
Notation "' p <- m ;; k" := (bind m (fun v => let p := v in k))
  (at level 61, p pattern, m at next level, right associativity).

(** Truth value of a Python object *)
Definition truthy (v : pyval) : bool :=
  match v with
  | PNone => false
  | PBool b => b
  | PInt z => negb (z =? 0)
  | PFloat (S754_zero _) => false
  | PFloat _ => true
  | PStr s => negb (str_eqb s [])
  | PList l => match l with [] => false | _ => true end
  | PDict d => match d with [] => false | _ => true end
  end.

(** [isinstance(v, str)], [isinstance(v, list)], [isinstance(v, int)]
    ([bool] is a subclass of [int]) *)
Definition is_str (v : pyval) : bool :=
  match v with PStr _ => true | _ => false end.
Definition is_list (v : pyval) : bool :=
  match v with PList _ => true | _ => false end.
Definition is_int (v : pyval) : bool :=
  match v with PInt _ | PBool _ => true | _ => false end.

(** [type(v).__name__] *)
Definition type_name (v : pyval) : str :=
  match v with
  | PNone => lit "NoneType"
  | PBool _ => lit "bool"
  | PInt _ => lit "int"
  | PFloat _ => lit "float"
  | PStr _ => lit "str"
  | PList _ => lit "list"
  | PDict _ => lit "dict"
  end.

(** *** Dictionaries *)

Definition dict := list (str * pyval).

(** [d.get(k)]: [None] of Rocq is the absent key. *)
Fixpoint lookup (k : str) (d : dict) : option pyval :=
  match d with
  | [] => None
  | (k', v) :: d' => if str_eqb k k' then Some v else lookup k d'
  end.

(** [d.get(k, dflt)] *)
Definition get (d : dict) (k : str) (dflt : pyval) : pyval :=
  match lookup k d with
  | Some v => v
  | None => dflt
  end.

(** [k in d] *)
Definition has_key (k : str) (d : dict) : bool :=
  match lookup k d with Some _ => true | None => false end.

(** [d[k] = v]: an existing key keeps its place, a new one goes last. *)
Fixpoint set (k : str) (v : pyval) (d : dict) : dict :=
  match d with
  | [] => [(k, v)]
  | (k', v') :: d' =>
      if str_eqb k k' then (k', v) :: d' else (k', v') :: set k v d'
  end.

(** *** Text that UTF-8 can encode

    [str.encode("utf-8")] raises [UnicodeEncodeError] on a surrogate, a code
    point from U+D800 to U+DFFF, which [json.loads] builds from an escape
    that stands alone. A value can be written when no string in it, key or
    value, holds one. *)
Definition no_surrogate (s : str) : bool :=
  forallb (fun c => negb ((0xD800 <=? c) && (c <=? 0xDFFF))) s.

Fixpoint utf8_encodable (v : pyval) : bool :=
  match v with
  | PStr s => no_surrogate s
  | PList l => forallb utf8_encodable l
  | PDict d =>
      forallb (fun kv => no_surrogate (fst kv) && utf8_encodable (snd kv)) d
  | _ => true
  end.

(** The array [write_text] can encode *)
Definition utf8_writable (prompts : list dict) : bool :=
  forallb (fun p => utf8_encodable (PDict p)) prompts.

(** *** Built-ins taken from the Unicode database

    [str.lower], [str.isdigit] and [int] depend on the Unicode character
    database, and [str] of a float or of a container on [repr]; the
    development is parametric in them. [int_of_str] is [None] where [int]
    raises [ValueError] (as on the digit [chr(0xB2)], for which [isdigit]
    holds). *)
Class Builtins := {
  lower : str -> str;
  isdigit : str -> bool;
  int_of_str : str -> option Z;
  repr : pyval -> str
}.

(** CPython's built-ins on ASCII text: the examples below run with these
    and use ASCII text only where a built-in reads it. *)
Definition ascii_lower (s : str) : str :=
  map (fun c => if (65 <=? c) && (c <=? 90) then c + 32 else c) s.

Definition ascii_isdigit (s : str) : bool :=
  negb (str_eqb s []) && forallb (fun c => (48 <=? c) && (c <=? 57)) s.

Definition ascii_int (s : str) : option Z :=
  Some (fold_left (fun acc c => 10 * acc + (c - 48)) s 0).

(** [', '.join(l)] *)
Fixpoint join_comma (l : list str) : str :=
  match l with
  | [] => []
  | [x] => x
  | x :: l' => x ++ lit ", " ++ join_comma l'
  end.

(** [repr] on [None], booleans, integers, strings of printable ASCII without
    quote or backslash, and lists and dicts of these. No example prints a
    float, whose shortest round-trip form is not reproduced here. *)
Fixpoint ascii_repr (v : pyval) : str :=
  match v with
  | PNone => lit "None"
  | PBool true => lit "True"
  | PBool false => lit "False"
  | PInt z => str_of_Z z
  | PFloat _ => lit "float"
  | PStr s => lit "'" ++ s ++ lit "'"
  | PList l => lit "[" ++ join_comma (map ascii_repr l) ++ lit "]"
  | PDict d =>
      lit "{" ++
      join_comma (map (fun kv => lit "'" ++ fst kv ++ lit "': " ++ ascii_repr (snd kv)) d)
      ++ lit "}"
  end.

Definition ascii_builtins : Builtins :=
  {| lower := ascii_lower; isdigit := ascii_isdigit;
     int_of_str := ascii_int; repr := ascii_repr |}.

Section WithBuiltins.
Context {B : Builtins}.

(** [str(v)], which is also how an f-string formats [v] *)
Definition py_str (v : pyval) : str :=
  match v with
  | PNone => lit "None"
  | PBool true => lit "True"
  | PBool false => lit "False"
  | PInt z => str_of_Z z
  | PStr s => s
  | _ => repr v
  end.

End WithBuiltins.

(** The ids of a collection, [None] for a record without one *)
Definition ids_of (prompts : list dict) : list pyval :=
  map (fun p => get p (lit "id") PNone) prompts.

(** The ids that are the decimal strings of [index + 1] to [index + n] *)
Definition sequential_ids (index n : nat) : list pyval :=
  map (fun i => PStr (str_of_nat (i + 1))) (seq index n).

(** ** Regular expressions of compile.py's pattern table

    The patterns of [EMOJI_PATTERNS] use literals, alternation, optional
    groups, [\s*] and the class [[-\s]]. [re.search] is only tested for
    truth there, so a pattern is modelled by the language it denotes,
    decided with derivatives. *)
Module Re.

Inductive re :=
| Void
| Eps
| Chr (c : Z)
| Space
| Cat (a b : re)
| Alt (a b : re)
| Star (a : re).

Fixpoint nullable (r : re) : bool :=
  match r with
  | Void => false
  | Eps => true
  | Chr _ => false
  | Space => false
  | Cat a b => nullable a && nullable b
  | Alt a b => nullable a || nullable b
  | Star _ => true
  end.

Definition cat (a b : re) : re :=
  match a, b with
  | Void, _ => Void
  | _, Void => Void
  | Eps, _ => b
  | _, _ => Cat a b
  end.

Definition alt (a b : re) : re :=
  match a, b with
  | Void, _ => b
  | _, Void => a
  | _, _ => Alt a b
  end.

Fixpoint deriv (c : Z) (r : re) : re :=
  match r with
  | Void => Void
  | Eps => Void
  | Chr d => if c =? d then Eps else Void
  | Space => if isspace c then Eps else Void
  | Cat a b =>
      if nullable a then alt (cat (deriv c a) b) (deriv c b)
      else cat (deriv c a) b
  | Alt a b => alt (deriv c a) (deriv c b)
  | Star a => cat (deriv c a) (Star a)
  end.

(** Some prefix of [s] is in the language of [r]: [re.match(r, s)] is
    truthy. *)
Fixpoint matches_prefix (r : re) (s : str) : bool :=
  nullable r ||
  match s with
  | [] => false
  | c :: s' => matches_prefix (deriv c r) s'
  end.

(** [re.search(r, s)] is truthy: a match starts at some position. *)
Fixpoint search (r : re) (s : str) : bool :=
  matches_prefix r s ||
  match s with
  | [] => false
  | _ :: s' => search r s'
  end.

(** A literal word *)
Definition word (w : string) : re :=
  fold_right (fun c r => Cat (Chr c) r) Eps (lit w).

(** [a?] *)
Definition opt (a : re) : re := Alt a Eps.

(** [(a1|a2|...)] *)
Definition alts (l : list re) : re := fold_right Alt Void l.

End Re.

(** ** compile.py *)
Module Compile.
Import Re.

(** [EMOJI_PATTERNS], in the order of the dict literal *)
Definition EMOJI_PATTERNS : list (re * str) :=
  [ (alts [Cat (word "product") (Cat (Star Space) (word "manager")); word "pm";
           word "business"; word "strategy"; word "roadmap";
           Cat (word "pric") (Alt (word "ing") (word "e"));
           Cat (word "market") (opt (word "ing"))],
     [128104; 8205; 128188]);
    (alts [word "startup"; word "founder"; word "entrepreneur"; word "ceo";
           word "cto"; word "leadership"],
     [128640]);
    (alts [word "developer"; word "engineer"; word "coding";
           word "programming"; word "software";
           Cat (word "debug") (opt (word "ging")); word "code"],
     [128104; 8205; 128187]);
    (alts [word "frontend"; word "backend";
           Cat (word "full") (Cat (opt (Alt (Chr 45) Space)) (word "stack"));
           word "devops"; word "api"; word "rest"; word "graphql"],
     [128187]);
    (alts [word "python"; word "javascript"; word "typescript"; word "java";
           word "golang"; word "rust"; word "cpp"; word "c++"],
     [128013]);
    (alts [Cat (word "design") (opt (word "er")); word "creative"; word "art";
           word "ui"; word "ux"; word "figma"; word "sketch"; word "visual"],
     [127912]);
    (alts [word "writer"; word "writing";
           Cat (word "copy") (opt (word "writing")); word "content";
           word "blog"; word "article"],
     [9997; 65039]);
    (alts [word "video"; word "photo"; word "image"; word "media";
           word "editing"; word "film"],
     [127916]);
    (alts [word "analytic"; word "data"; word "metric"; word "statistics";
           word "insight"; word "report"; word "dashboard"],
     [128202]);
    (alts [word "sql"; word "database"; word "query"; word "etl";
           word "pipeline"; word "warehouse"],
     [128452; 65039]);
    (alts [Cat (word "machine") (Cat (Star Space) (word "learning"));
           word "ml"; word "ai";
           Cat (word "artificial") (Cat (Star Space) (word "intelligence"));
           word "model"; word "training"],
     [129302]);
    (alts [word "chat"; word "support"; word "communication"; word "customer";
           word "service"; word "help"],
     [128172]);
    (alts [word "email"; word "newsletter"; word "marketing"; word "outreach";
           word "campaign"],
     [128231]);
    (alts [word "teacher"; word "education"; word "learning"; word "tutorial";
           word "course"; word "mentor"; word "coach"],
     [128218]);
    (alts [word "student"; word "academic"; word "research"; word "paper";
           word "thesis"; word "study"],
     [127891]);
    (alts [word "finance"; word "money"; word "trading"; word "investment";
           word "crypto"; word "bitcoin"; word "stock"],
     [128176]);
    (alts [word "accounting"; word "budget"; word "invoice"; word "payment"],
     [128181]);
    (alts [word "science"; word "research"; word "lab"; word "experiment";
           word "discovery"; word "biology"; word "chemistry"],
     [128300]);
    (alts [word "math"; word "physics"; word "calculation"; word "formula";
           word "equation"],
     [129518]);
    (alts [word "assistant"; word "helper"; word "copilot"; word "aid";
           word "tool"; word "utility"],
     [129302]);
    (alts [word "automation"; word "workflow"; word "script"; word "batch";
           word "process"],
     [9881; 65039]);
    (alts [word "security"; word "privacy"; word "encrypt"; word "protect";
           word "auth"],
     [128274]);
    (alts [word "document"; word "pdf"; word "word"; word "excel";
           word "spreadsheet"; word "presentation"],
     [128196]);
    (alts [word "file"; word "folder"; word "directory"; word "storage";
           word "backup"; word "sync"],
     [128193]);
    (alts [word "web"; word "website"; word "html"; word "css"; word "browser";
           word "internet"; word "url"; word "link"],
     [127760]);
    (alts [word "seo"; word "search"; word "google"; word "index";
           word "ranking"],
     [128269]);
    (alts [word "general"; word "default"; word "universal"; word "common"],
     [128295]) ].

Definition DEFAULT_EMOJI : str := [128295].

(** The loop of [generate_emoji]: the symbol of the first rule whose pattern
    is found in the text. *)
Fixpoint first_match (table : list (re * str)) (text : str) : str :=
  match table with
  | [] => DEFAULT_EMOJI
  | (pattern, emoji) :: table' =>
      if search pattern text then emoji else first_match table' text
  end.

Section WithBuiltins.
Context {B : Builtins}.

(** [generate_emoji(description, filename)]. The text to analyse is
    [.lower()] of [description or E], where [E] is the sum of the empty
    string, a space and [filename]: [+] binds tighter than [or], so the
    filename is read only when [description] is falsy; [.lower()] raises
    [AttributeError] on a truthy [description] that is not a string. *)
Definition generate_emoji (description : pyval) (filename : str) : result str :=
  text_to_analyze <-
    (if truthy description then
       match description with
       | PStr d => Ok (lower d)
       | _ => Raise AttributeError
       end
     else Ok (lower ([] ++ lit " " ++ filename))) ;;
  Ok (first_match EMOJI_PATTERNS text_to_analyze).

(** The classifier as the specification words it: the search text is the
    case-folded concatenation of the description, the separator of the
    source expression and the filename. *)
Definition generate_emoji_spec (description filename : str) : str :=
  first_match EMOJI_PATTERNS (lower (description ++ lit " " ++ filename)).

(** [normalize_category(category)] *)
Definition normalize_category (category : pyval) : list str :=
  match category with
  | PNone => [lit "General"]
  | PStr s => [s]
  | PList l => map py_str (filter truthy l)
  | _ => [lit "General"]
  end.

(** *** The frontmatter pattern

    [re.match] of the frontmatter pattern on [content] under [re.DOTALL], as
    the backtracking matcher explores it. The pattern is, in sequence: the
    anchor, "---", "\s*", "\n", group 1 (any text, lazy), "\n---", "\s*",
    "\n", group 2 (any text, greedy) and the end anchor.

    [ws_nl s] lists the ways "\s*\n" matches at the start of [s], in the
    order the matcher tries them (the greedy "\s*" gives up one character
    at a time): each is the text "\s*" took and the text after the
    newline. *)
Fixpoint ws_nl (s : str) : list (str * str) :=
  match s with
  | [] => []
  | c :: s' =>
      (if isspace c then map (fun wr => (c :: fst wr, snd wr)) (ws_nl s')
       else [])
      ++ (if c =? NL then [([], s')] else [])
  end.

(** The closing delimiter "\n---\s*\n" at the start of [s], followed by the
    greedy last group, which under [DOTALL] takes all that is left: the text
    "\s*" took and the body. *)
Definition closing (s : str) : option (str * str) :=
  if startswith (NL :: lit "---") s then hd_error (ws_nl (skipn 4 s))
  else None.

(** The pattern from its first group on: the lazy group grows one character
    at a time until the rest of the pattern matches. *)
Fixpoint lazy_yaml (s : str) : option (str * str * str) :=
  match closing s with
  | Some (w, body) => Some ([], w, body)
  | None =>
      match s with
      | [] => None
      | c :: s' =>
          match lazy_yaml s' with
          | Some (y, w, body) => Some (c :: y, w, body)
          | None => None
          end
      end
  end.

(** The first alternative of [l] on which [f] succeeds *)
Fixpoint first_some {A C : Type} (f : A -> option C) (l : list A) : option C :=
  match l with
  | [] => None
  | a :: l' =>
      match f a with
      | Some c => Some c
      | None => first_some f l'
      end
  end.

(** A successful match: the whitespace after the opening [---], group 1,
    the whitespace after the closing [---] and group 2. *)
Record fm_match := {
  ws1 : str;
  yaml_text : str;
  ws2 : str;
  body : str
}.

Definition frontmatter_match (content : str) : option fm_match :=
  if startswith (lit "---") content then
    first_some
      (fun wr =>
         match lazy_yaml (snd wr) with
         | Some (y, w, b) =>
             Some {| ws1 := fst wr; yaml_text := y; ws2 := w; body := b |}
         | None => None
         end)
      (ws_nl (skipn 3 content))
  else None.

(** *** simple_yaml_parse *)

(** The body of the first loop: one line of the scalar pass. The last
    [elif] of the source (a list item) only binds a local and is left out. *)
Definition scalar_line (res : dict) (line : str) : result dict :=
  let stripped := strip line in
  if str_eqb stripped [] || startswith (lit "#") stripped then Ok res
  else
    match split1 58 line with
    | Some (key, value) =>
        let key := strip key in
        let value := strip value in
        if str_eqb value [] then Ok res
        else if startswith [34] value && endswith [34] value then
          Ok (set key (PStr (slice_1_m1 value)) res)
        else if startswith [39] value && endswith [39] value then
          Ok (set key (PStr (slice_1_m1 value)) res)
        else if str_eqb (lower value) (lit "true") then
          Ok (set key (PBool true) res)
        else if str_eqb (lower value) (lit "false") then
          Ok (set key (PBool false) res)
        else if isdigit value then
          match int_of_str value with
          | Some z => Ok (set key (PInt z) res)
          | None => Raise ValueError
          end
        else
          let value :=
            if contains (lit "#") value then strip (hd [] (split 35 value))
            else value in
          Ok (set key (PStr value) res)
    | None => Ok res
    end.

Fixpoint scalar_pass (res : dict) (lines : list str) : result dict :=
  match lines with
  | [] => Ok res
  | line :: lines' =>
      r <- scalar_line res line ;;
      scalar_pass r lines'
  end.

(** [d[k]], which raises [KeyError] on an absent key *)
Definition getitem (d : dict) (k : str) : result pyval :=
  match lookup k d with
  | Some v => Ok v
  | None => Raise KeyError
  end.

(** [.strip()], then [.strip] of the double quote, then [.strip] of the
    single quote: what the second loop applies to a list item and to the
    text after a colon *)
Definition unquote (s : str) : str := strip_char 39 (strip_char 34 (strip s)).

(** The body of the second loop. Its state is [current_key] ([None] of the
    source is [None] here) and [result_with_lists]. *)
Definition list_line (st : option str * dict) (line : str)
  : result (option str * dict) :=
  let '(current_key, rwl) := st in
  let stripped := strip line in
  let key_set := match current_key with
                 | Some k => negb (str_eqb k [])
                 | None => false
                 end in
  let ck := match current_key with Some k => k | None => [] end in
  if contains (lit ":") line && negb (startswith (lit " ") line) then
    let key := strip (match split1 58 line with
                      | Some (k, _) => k
                      | None => line
                      end) in
    Ok (Some key, set key PNone rwl)
  else if key_set && startswith (lit "- ") stripped then
    let value := unquote (skipn 2 stripped) in
    cur <- getitem rwl ck ;;
    match cur with
    | PNone => Ok (current_key, set ck (PList [PStr value]) rwl)
    | PList l => Ok (current_key, set ck (PList (l ++ [PStr value])) rwl)
    | _ => Ok (current_key, rwl)
    end
  else if key_set then
    cur <- getitem rwl ck ;;
    match cur with
    | PNone =>
        match split1 58 line with
        | Some (_, v) => Ok (current_key, set ck (PStr (unquote v)) rwl)
        | None => Ok (current_key, rwl)
        end
    | _ => Ok (current_key, rwl)
    end
  else Ok (current_key, rwl).

Fixpoint list_pass (st : option str * dict) (lines : list str)
  : result (option str * dict) :=
  match lines with
  | [] => Ok st
  | line :: lines' =>
      st' <- list_line st line ;;
      list_pass st' lines'
  end.

(** The merge loop: a key the second pass gave a value other than [None]
    overrides the scalar pass. *)
Fixpoint merge (res : dict) (items : dict) : dict :=
  match items with
  | [] => res
  | (key, value) :: items' =>
      merge (match value with
             | PNone => res
             | _ => set key value res
             end) items'
  end.

(** The invariant of the second loop: its current key is a key of
    [result_with_lists]. *)
Definition key_present (st : option str * dict) : Prop :=
  forall k, fst st = Some k -> lookup k (snd st) <> None.

Definition simple_yaml_parse (text : str) : result dict :=
  let lines := split NL text in
  res <- scalar_pass [] lines ;;
  '(_, result_with_lists) <- list_pass (None, []) lines ;;
  Ok (merge res result_with_lists).

(** [f"---\n{yaml_text}\n---\n\n{body}".strip()] *)
Definition rebuild (yaml_text body : str) : str :=
  strip (lit "---" ++ [NL] ++ yaml_text ++ [NL] ++ lit "---" ++ [NL; NL] ++ body).

(** [parse_yaml_frontmatter(content)]; [except Exception] turns any
    exception of the parser into the no-frontmatter answer. *)
Definition parse_yaml_frontmatter (content : str) : dict * str :=
  match frontmatter_match content with
  | None => ([], content)
  | Some m =>
      match simple_yaml_parse (yaml_text m) with
      | Ok frontmatter => (frontmatter, rebuild (yaml_text m) (body m))
      | Raise _ => ([], content)
      end
  end.

(** [compile_file], from the text read from the file on: [stem] is
    [file_path.stem] and [content] the text of the file. *)
Definition compile_file (stem content : str) : result dict :=
  let '(frontmatter, full_content) := parse_yaml_frontmatter content in
  let description := get frontmatter (lit "description") (PStr []) in
  let category :=
    get frontmatter (lit "category") (get frontmatter (lit "group") PNone) in
  let group := normalize_category category in
  emoji <-
    (let e := get frontmatter (lit "emoji") PNone in
     if truthy e then Ok e
     else (g <- generate_emoji description stem ;; Ok (PStr g))) ;;
  Ok [ (lit "id", PStr []);
       (lit "name", PStr stem);
       (lit "description", description);
       (lit "emoji", emoji);
       (lit "group", PList (map PStr group));
       (lit "prompt", PStr full_content) ].

(** The last loop of [compile_directory]: ids by position, from [idx] on. *)
Fixpoint assign_ids (idx : nat) (compiled_prompts : list dict) : list dict :=
  match compiled_prompts with
  | [] => []
  | prompt :: rest =>
      set (lit "id") (PStr (str_of_nat idx)) prompt :: assign_ids (S idx) rest
  end.

(** A path that the glob of [compile_directory] yields: its stem, its name,
    whether [is_file()] holds of it, and what [read_text] gives, the text of
    the file or the message of the exception it raises. *)
Record md_path := {
  path_stem : str;
  path_name : str;
  path_is_file : bool;
  path_read_text : str + str
}.

(** The paths that are files and can be read, and those that are files and
    cannot *)
Definition readable (file_path : md_path) : bool :=
  path_is_file file_path
  && match path_read_text file_path with inl _ => true | inr _ => false end.

Definition unreadable (file_path : md_path) : bool :=
  path_is_file file_path
  && match path_read_text file_path with inl _ => false | inr _ => true end.

(** [compile_file(file_path, errors, warnings)] with its [try] around the
    read: a read failure appends a message to [errors] and returns [None];
    the rest is [compile_file] above. The result is the record, or [None],
    and [errors] as the call leaves it. *)
Definition compile_path (file_path : md_path) (errors : list str)
  : result (option dict * list str) :=
  match path_read_text file_path with
  | inr e =>
      Ok (None,
          errors ++ [lit "Failed to read " ++ path_name file_path ++ lit ": " ++ e])
  | inl content =>
      prompt <- compile_file (path_stem file_path) content ;;
      Ok (Some prompt, errors)
  end.

(** The first loop of [compile_directory]: a path that is not a file is
    skipped, and a record is appended when [compile_file] returned one that
    is truthy. *)
Fixpoint compile_loop (md_files : list md_path) (errors : list str)
  : result (list dict * list str) :=
  match md_files with
  | [] => Ok ([], errors)
  | md_file :: md_files' =>
      if negb (path_is_file md_file) then compile_loop md_files' errors
      else
        '(prompt, errors') <- compile_path md_file errors ;;
        '(compiled, errors'') <- compile_loop md_files' errors' ;;
        Ok (match prompt with
            | Some p => if truthy (PDict p) then p :: compiled else compiled
            | None => compiled
            end, errors'')
  end.

(** [compile_directory], from the sorted paths of the glob on: the compiled
    records with their ids, the errors and the warnings. An exception of
    [compile_file] other than a read failure is not caught. *)
Definition compile_directory (md_files : list md_path)
  : result (list dict * list str * list str) :=
  match md_files with
  | [] => Ok ([], [], [])
  | _ =>
      '(compiled_prompts, errors) <- compile_loop md_files [] ;;
      Ok (assign_ids 1 compiled_prompts, errors, [])
  end.

End WithBuiltins.
End Compile.

(** ** validate.py *)
Module Validate.

(** [ValidationIssue]. [prompt_id] holds whatever the check passed: several
    checks pass the record's id as it is, others its [str]. *)
Record ValidationIssue := {
  level : str;
  prompt_id : pyval;
  field : str;
  message : str;
  suggestion : option str
}.

Definition add_issue (level : str) (prompt_id : pyval) (field message : str)
    (suggestion : str) : ValidationIssue :=
  {| level := level; prompt_id := prompt_id; field := field;
     message := message; suggestion := Some suggestion |}.

Definition is_error (i : ValidationIssue) : bool := str_eqb (level i) (lit "error").

(** The items a [for] loop draws from a value: the characters of a string,
    the elements of a list, the keys of a dict; other values are not
    iterable. *)
Definition iterate (v : pyval) : result (list pyval) :=
  match v with
  | PStr s => Ok (map (fun c => PStr [c]) s)
  | PList l => Ok l
  | PDict d => Ok (map (fun kv => PStr (fst kv)) d)
  | _ => Raise TypeError
  end.

(** [ord(c)]: defined on a string of length one. *)
Definition ord (v : pyval) : result Z :=
  match v with
  | PStr [c] => Ok c
  | _ => Raise TypeError
  end.

(** [len(v)] *)
Definition len (v : pyval) : result nat :=
  match v with
  | PStr s => Ok (List.length s)
  | PList l => Ok (List.length l)
  | PDict d => Ok (List.length d)
  | _ => Raise TypeError
  end.

(** The [emoji_ranges] table of [_looks_like_emoji] *)
Definition emoji_ranges : list (Z * Z) :=
  [ (0x1F600, 0x1F64F); (0x1F300, 0x1F5FF); (0x1F680, 0x1F6FF);
    (0x1F1E0, 0x1F1FF); (0x2600, 0x26FF); (0x2700, 0x27BF);
    (0x1F900, 0x1F9FF); (0x1FA00, 0x1FA6F); (0x1FA70, 0x1FAFF);
    (0x231A, 0x23FF); (0x2B50, 0x2B55); (0x203C, 0x3299) ].

(** [any(start <= code <= end for start, end in emoji_ranges)] *)
Definition in_ranges (ranges : list (Z * Z)) (code : Z) : bool :=
  existsb (fun r => (fst r <=? code) && (code <=? snd r)) ranges.

(** The loop [for char in text: if in range: return True], then
    [return False]. *)
Fixpoint any_in_ranges (ranges : list (Z * Z)) (chars : list pyval)
  : result bool :=
  match chars with
  | [] => Ok false
  | char :: chars' =>
      code <- ord char ;;
      if in_ranges ranges code then Ok true
      else any_in_ranges ranges chars'
  end.

Definition _looks_like_emoji (text : pyval) : result bool :=
  chars <- iterate text ;;
  any_in_ranges emoji_ranges chars.

(** [emoji_suggestions] of [_suggest_better_emoji], in the order of the
    dict literal *)
Definition emoji_suggestions : list (str * list str) :=
  [ ([128104; 8205; 128188],
     [lit "pm"; lit "product manager"; lit "business"; lit "strategy"]);
    ([128104; 8205; 128187],
     [lit "developer"; lit "engineer"; lit "coding"; lit "programming";
      lit "software"]);
    ([9997; 65039], [lit "writer"; lit "writing"; lit "copy"; lit "content"]);
    ([127912], [lit "design"; lit "creative"; lit "art"; lit "ui"; lit "ux"]);
    ([128202], [lit "analytic"; lit "data"; lit "metric"; lit "analysis"]);
    ([129302], [lit "assistant"; lit "helper"; lit "copilot"; lit "ai"]);
    ([128172], [lit "chat"; lit "support"; lit "communication"]);
    ([128218], [lit "teacher"; lit "education"; lit "learning"]);
    ([128176], [lit "finance"; lit "money"; lit "trading"]);
    ([128300], [lit "science"; lit "research"; lit "lab"]) ].

(** [a == b] where [a] is a string *)
Definition eq_str (a : str) (b : pyval) : bool :=
  match b with
  | PStr s => str_eqb a s
  | _ => false
  end.

(** *** Equality of dictionary and set keys

    [pid in id_set] hashes [pid], which raises [TypeError] on a list or a
    dict, and compares by [==]: [True == 1 == 1.0]. A number is read as
    [m * 2**e]. [NaN] is found in a set that holds it, since the JSON decoder
    hands out one shared object for it. *)
Inductive num :=
| NFin (m e : Z)
| NInf (neg : bool)
| NNan.

Definition num_of (v : pyval) : option num :=
  match v with
  | PBool b => Some (NFin (if b then 1 else 0) 0)
  | PInt z => Some (NFin z 0)
  | PFloat (S754_zero _) => Some (NFin 0 0)
  | PFloat (S754_finite s m e) =>
      Some (NFin (if s then Z.neg m else Z.pos m) e)
  | PFloat (S754_infinity s) => Some (NInf s)
  | PFloat S754_nan => Some NNan
  | _ => None
  end.

Definition num_eqb (a b : num) : bool :=
  match a, b with
  | NFin m1 e1, NFin m2 e2 =>
      let e := Z.min e1 e2 in
      (m1 * 2 ^ (e1 - e) =? m2 * 2 ^ (e2 - e))
  | NInf s1, NInf s2 => Bool.eqb s1 s2
  | NNan, NNan => true
  | _, _ => false
  end.

Definition hashable (v : pyval) : bool :=
  match v with
  | PList _ | PDict _ => false
  | _ => true
  end.

Definition key_eqb (a b : pyval) : bool :=
  match a, b with
  | PNone, PNone => true
  | PStr s, PStr t => str_eqb s t
  | _, _ =>
      match num_of a, num_of b with
      | Some x, Some y => num_eqb x y
      | _, _ => false
      end
  end.

(** [pid in id_set] *)
Definition set_mem (pid : pyval) (id_set : list pyval) : result bool :=
  if hashable pid then Ok (existsb (key_eqb pid) id_set)
  else Raise TypeError.

Section WithBuiltins.
Context {B : Builtins}.

(** *** check_required_fields *)

Definition required_fields : list str :=
  [lit "id"; lit "name"; lit "description"; lit "emoji"; lit "group";
   lit "prompt"].

Definition check_required_prompt (prompt : dict) : list ValidationIssue :=
  let pid := get prompt (lit "id") (PStr (lit "unknown")) in
  flat_map
    (fun field =>
       if negb (has_key field prompt) then
         [add_issue (lit "error") (PStr (py_str pid)) field
            (lit "Required field '" ++ field ++ lit "' is missing")
            (lit "Add '" ++ field ++ lit "': <value> to the prompt object")]
       else [])
    required_fields.

Definition check_required_fields (prompts : list dict) : list ValidationIssue :=
  flat_map check_required_prompt prompts.

(** *** check_field_types *)

(** One of the six tests: [key in prompt and not isinstance(prompt[key], T)] *)
Definition type_check (prompt : dict) (pid : pyval) (key : str)
    (ok : pyval -> bool) (what expected hint : str) : list ValidationIssue :=
  match lookup key prompt with
  | Some v =>
      if negb (ok v) then
        [add_issue (lit "error") (PStr (py_str pid)) key
           (what ++ lit " must be " ++ expected ++ lit ", got " ++ type_name v)
           hint]
      else []
  | None => []
  end.

Definition check_types_prompt (prompt : dict) : list ValidationIssue :=
  let pid := get prompt (lit "id") (PStr (lit "unknown")) in
  type_check prompt pid (lit "id") is_str (lit "ID") (lit "a string")
    (lit "Convert ID to string format")
  ++ type_check prompt pid (lit "name") is_str (lit "Name") (lit "a string")
       (lit "Convert name to string")
  ++ type_check prompt pid (lit "description") is_str (lit "Description")
       (lit "a string") (lit "Convert description to string")
  ++ type_check prompt pid (lit "emoji") is_str (lit "Emoji") (lit "a string")
       (lit "Use a string for emoji")
  ++ type_check prompt pid (lit "group") is_list (lit "Group") (lit "an array")
       (lit "Use array format: ['Category1', 'Category2']")
  ++ type_check prompt pid (lit "prompt") is_str (lit "Prompt") (lit "a string")
       (lit "Convert prompt content to string").

Definition check_field_types (prompts : list dict) : list ValidationIssue :=
  flat_map check_types_prompt prompts.

(** *** check_id_sequence *)

Definition numeric_error (pid : str) : ValidationIssue :=
  add_issue (lit "error") (PStr pid) (lit "id")
    (lit "ID must be numeric string, got '" ++ pid ++ lit "'")
    (lit "Use numeric values like '1', '2', '3'...").

Definition duplicate_error (pid : pyval) : ValidationIssue :=
  add_issue (lit "error") (PStr (py_str pid)) (lit "id")
    (lit "Duplicate ID found: '" ++ py_str pid ++ lit "'")
    (lit "Assign unique sequential IDs").

Definition sequence_warning (pid expected_id : str) : ValidationIssue :=
  add_issue (lit "warning") (PStr pid) (lit "id")
    (lit "ID is not sequential: expected '" ++ expected_id ++ lit "', got '"
       ++ pid ++ lit "'")
    (lit "Use sequential IDs starting from '1'").

(** The part of the loop body after the duplicate test: the issues of the
    sequence test for the record at 1-based position [i]. *)
Definition sequence_issues (i : nat) (pid : pyval) : list ValidationIssue :=
  match pid with
  | PStr s =>
      if negb (str_eqb s (str_of_nat i)) then [sequence_warning s (str_of_nat i)]
      else []
  | _ => []
  end.

(** One iteration of the loop for the record at 1-based position [i]: the
    issues it adds and the new [id_set]. *)
Definition check_id_step (i : nat) (prompt : dict) (id_set : list pyval)
  : result (list ValidationIssue * list pyval) :=
  match lookup (lit "id") prompt with
  | None | Some PNone => Ok ([], id_set)
  | Some pid =>
      if (match pid with PStr s => negb (isdigit s) | _ => false end) then
        Ok ([numeric_error (py_str pid)], id_set)
      else
        dup <- set_mem pid id_set ;;
        Ok ((if dup then [duplicate_error pid] else [])
              ++ sequence_issues i pid,
            pid :: id_set)
  end.

(** The loop over [enumerate(self.prompts, 1)], from position [i] on: the
    issues each iteration adds, record by record. *)
Fixpoint check_id_loop (i : nat) (prompts : list dict) (id_set : list pyval)
  : result (list (list ValidationIssue)) :=
  match prompts with
  | [] => Ok []
  | prompt :: prompts' =>
      '(issues, id_set') <- check_id_step i prompt id_set ;;
      rest <- check_id_loop (S i) prompts' id_set' ;;
      Ok (issues :: rest)
  end.

(** [check_id_sequence]: the issues of all iterations, in order *)
Definition check_id_sequence (prompts : list dict) : result (list ValidationIssue) :=
  added <- check_id_loop 1 prompts [] ;;
  Ok (List.concat added).

(** The duplicate-id errors among the issues of [check_id_sequence]: its
    other two issues begin with other words. *)
Definition is_duplicate_error (i : ValidationIssue) : bool :=
  is_error i && startswith (lit "Duplicate ID found: '") (message i).

(** The id an iteration adds to [id_set]: none for an absent or null id and
    for a string that [isdigit] rejects. *)
Definition tracked_id (prompt : dict) : option pyval :=
  match lookup (lit "id") prompt with
  | None | Some PNone => None
  | Some (PStr s) => if isdigit s then Some (PStr s) else None
  | Some pid => Some pid
  end.

(** What an iteration does when the id can be hashed: the issues it adds at
    1-based position [i] and the [id_set] it leaves. *)
Definition issues_of (i : nat) (prompt : dict) (id_set : list pyval)
  : list ValidationIssue :=
  match tracked_id prompt with
  | Some pid =>
      (if existsb (key_eqb pid) id_set then [duplicate_error pid] else [])
      ++ sequence_issues i pid
  | None =>
      match lookup (lit "id") prompt with
      | Some (PStr s) => [numeric_error s]
      | _ => []
      end
  end.

Definition set_after (prompt : dict) (id_set : list pyval) : list pyval :=
  match tracked_id prompt with
  | Some pid => pid :: id_set
  | None => id_set
  end.

(** The [id_set] the loop holds when it reaches the record at 0-based
    position [k], having started with [id_set] *)
Definition ids_before (k : nat) (prompts : list dict) (id_set : list pyval)
  : list pyval :=
  fold_left (fun acc q => set_after q acc) (firstn k prompts) id_set.

(** *** check_emoji_validity *)

(** [_suggest_better_emoji(desc, current)]: [None] of the source is [None]. *)
Definition _suggest_better_emoji (desc current : pyval) : result (option str) :=
  match desc with
  | PStr d =>
      let desc_lower := lower d in
      Ok (option_map fst
            (find (fun ek =>
                     negb (eq_str (fst ek) current)
                     && existsb (fun kw => contains kw desc_lower) (snd ek))
                  emoji_suggestions))
  | _ => Raise AttributeError
  end.

Definition check_emoji_prompt (verbose : bool) (prompt : dict)
  : result (list ValidationIssue) :=
  let emoji := get prompt (lit "emoji") (PStr []) in
  let pid := get prompt (lit "id") (PStr (lit "unknown")) in
  let desc := get prompt (lit "description") (PStr []) in
  if negb (truthy emoji) then
    Ok [add_issue (lit "error") pid (lit "emoji") (lit "Emoji is missing")
          (lit "Add a relevant emoji based on description")]
  else
    looks <- _looks_like_emoji emoji ;;
    let shape :=
      if negb looks then
        [add_issue (lit "warning") pid (lit "emoji")
           (lit "'" ++ py_str emoji ++ lit "' may not be a valid emoji")
           (lit "Use a single emoji character")]
      else [] in
    if verbose && truthy desc then
      suggested <- _suggest_better_emoji desc emoji ;;
      match suggested with
      | Some sug =>
          if negb (str_eqb sug []) && negb (eq_str sug emoji) then
            Ok (shape ++
                [add_issue (lit "info") pid (lit "emoji")
                   (lit "Current: " ++ py_str emoji)
                   (lit "Consider: " ++ sug)])
          else Ok shape
      | None => Ok shape
      end
    else Ok shape.

(** A loop over the records that gathers the issues of each, and stops at
    the first exception. *)
Fixpoint for_each (f : dict -> result (list ValidationIssue))
    (prompts : list dict) : result (list ValidationIssue) :=
  match prompts with
  | [] => Ok []
  | prompt :: prompts' =>
      issues <- f prompt ;;
      rest <- for_each f prompts' ;;
      Ok (issues ++ rest)
  end.

Definition check_emoji_validity (verbose : bool) (prompts : list dict)
  : result (list ValidationIssue) :=
  for_each (check_emoji_prompt verbose) prompts.

(** *** check_group_format *)

(** The inner loop over [enumerate(group)], from index [i] on *)
Fixpoint check_group_items (pid : pyval) (i : nat) (group : list pyval)
  : list ValidationIssue :=
  match group with
  | [] => []
  | g :: group' =>
      (match g with
       | PStr s =>
           if str_eqb (strip s) [] then
             [add_issue (lit "warning") pid (lit "group")
                (lit "group[" ++ str_of_nat i ++ lit "] is an empty string")
                (lit "Remove empty group entries")]
           else []
       | _ =>
           [add_issue (lit "warning") pid (lit "group")
              (lit "group[" ++ str_of_nat i ++ lit "] is not a string: "
                 ++ py_str g)
              (lit "Use string values for group categories")]
       end) ++ check_group_items pid (S i) group'
  end.

Definition check_group_prompt (prompt : dict) : list ValidationIssue :=
  let pid := get prompt (lit "id") (PStr (lit "unknown")) in
  match lookup (lit "group") prompt with
  | None | Some PNone => []
  | Some (PStr g) =>
      [add_issue (lit "error") pid (lit "group")
         (lit "Group is a string, should be array. Got: '" ++ g ++ lit "'")
         (lit "Change to 'group': ['" ++ g ++ lit "']")]
  | Some (PList l) =>
      (match l with
       | [] =>
           [add_issue (lit "error") pid (lit "group")
              (lit "Group array is empty")
              (lit "Add at least one category: ['General']")]
       | _ => []
       end) ++ check_group_items pid 0 l
  | Some _ => []
  end.

Definition check_group_format (prompts : list dict) : list ValidationIssue :=
  flat_map check_group_prompt prompts.

(** *** check_prompt_content *)

(** Group 1 of the pattern that is the frontmatter pattern of compile.py cut
    after its second "---": the lazy group up to the first line break
    followed by "---". *)
Fixpoint lazy_until_dashes (s : str) : option str :=
  if startswith (NL :: lit "---") s then Some []
  else
    match s with
    | [] => None
    | c :: s' => option_map (cons c) (lazy_until_dashes s')
    end.

Definition frontmatter_head (s : str) : option str :=
  if startswith (lit "---") s then
    Compile.first_some (fun wr => lazy_until_dashes (snd wr))
      (Compile.ws_nl (skipn 3 s))
  else None.

Definition check_prompt_prompt (prompt : dict) : result (list ValidationIssue) :=
  let prompt_content := get prompt (lit "prompt") (PStr []) in
  let pid := get prompt (lit "id") (PStr (lit "unknown")) in
  if negb (truthy prompt_content) then
    Ok [add_issue (lit "error") pid (lit "prompt")
          (lit "Prompt content is empty")
          (lit "Add the actual prompt content including YAML frontmatter")]
  else
    match prompt_content with
    | PStr s =>
        Ok ((if negb (startswith (lit "---") (strip s)) then
               [add_issue (lit "warning") pid (lit "prompt")
                  (lit "Prompt may be missing YAML frontmatter")
                  (lit "Add YAML frontmatter starting with '---'")]
             else [])
            ++
            (if contains (lit "---") s then
               match frontmatter_head s with
               | Some yaml_text =>
                   (if negb (contains (lit "description:") yaml_text) then
                      [add_issue (lit "info") pid (lit "prompt")
                         (lit "YAML frontmatter missing 'description' field")
                         (lit "Add 'description: <brief description>'")]
                    else [])
                   ++
                   (if negb (contains (lit "category:") yaml_text)
                       && negb (contains (lit "group:") yaml_text) then
                      [add_issue (lit "info") pid (lit "prompt")
                         (lit "YAML frontmatter missing 'category' field")
                         (lit "Add 'category: [CategoryName]'")]
                    else [])
               | None => []
               end
             else []))
    | _ => Raise AttributeError
    end.

Definition check_prompt_content (prompts : list dict)
  : result (list ValidationIssue) :=
  for_each check_prompt_prompt prompts.

(** *** validate_file

    From the parsed JSON array on: the issues gathered by the six checks, in
    their order. An empty array is accepted without running them. *)
Definition validate_file (verbose : bool) (prompts : list dict)
  : result (list ValidationIssue) :=
  match prompts with
  | [] => Ok []
  | _ =>
      let required := check_required_fields prompts in
      let types := check_field_types prompts in
      ids <- check_id_sequence prompts ;;
      emojis <- check_emoji_validity verbose prompts ;;
      let groups := check_group_format prompts in
      contents <- check_prompt_content prompts ;;
      Ok (required ++ types ++ ids ++ emojis ++ groups ++ contents)
  end.

(** The error-level issues of a report, which decide the exit status *)
Definition errors (issues : list ValidationIssue) : list ValidationIssue :=
  filter is_error issues.

Definition is_warning (i : ValidationIssue) : bool :=
  str_eqb (level i) (lit "warning").

Definition is_info (i : ValidationIssue) : bool :=
  str_eqb (level i) (lit "info").

(** An issue whose level is one of the three that [print_report] counts *)
Definition known_level (i : ValidationIssue) : Prop :=
  is_error i || is_warning i || is_info i = true.

(** [print_report], without the printing: the triple it returns, the
    numbers of errors, of warnings and of infos among the issues. *)
Definition print_report (issues : list ValidationIssue) : nat * nat * nat :=
  (length (filter is_error issues),
   length (filter is_warning issues),
   length (filter is_info issues)).

(** The status [main] exits with after the report *)
Definition exit_status (issues : list ValidationIssue) : Z :=
  let '(errors, _, _) := print_report issues in
  if (0 <? errors)%nat then 1 else 0.

(** What the error-level tests of the five checks other than the id check
    ask of a record: the six fields are present, [group] is a non-empty
    list, the five others are strings, and [emoji] and [prompt] are not
    empty. *)
Definition well_typed (prompt : dict) : bool :=
  match lookup (lit "id") prompt, lookup (lit "name") prompt,
        lookup (lit "description") prompt, lookup (lit "emoji") prompt,
        lookup (lit "group") prompt, lookup (lit "prompt") prompt with
  | Some (PStr _), Some (PStr _), Some (PStr _), Some (PStr (_ :: _)),
    Some (PList (_ :: _)), Some (PStr (_ :: _)) => true
  | _, _, _, _, _, _ => false
  end.

End WithBuiltins.
End Validate.

(** ** fix.py *)
Module Fix.
Import Validate.

(** [EMOJI_FIXES], in the order of the dict literal. The symbols are the
    string literals of fix.py as the file has them: each is the UTF-8
    encoding of a pictograph read as Windows-1252 text, so most are three
    to ten code points in the Latin and punctuation blocks. *)
Definition manager : str := [240; 376; 8216; 168; 226; 8364; 240; 376; 8217; 188].
Definition rocket : str := [240; 376; 353; 8364].
Definition coder : str := [240; 376; 8216; 168; 226; 8364; 240; 376; 8217; 187].
Definition laptop : str := [240; 376; 8217; 187].
Definition palette : str := [240; 376; 381; 168].
Definition pen : str := [226; 339; 239; 184].
Definition chart : str := [240; 376; 8220; 352].
Definition speech : str := [240; 376; 8217; 172].
Definition books : str := [240; 376; 8220; 353].
Definition money : str := [240; 376; 8217; 176].
Definition microscope : str := [240; 376; 8221; 172].
Definition robot : str := [240; 376; 164; 8211].
Definition gear : str := [226; 353; 8482; 239; 184].

Definition EMOJI_FIXES : list (str * str) :=
  [ (lit "product manager", manager); (lit "pm", manager);
    (lit "business", manager); (lit "strategy", manager);
    (lit "marketing", manager);
    (lit "startup", rocket); (lit "founder", rocket);
    (lit "developer", coder); (lit "engineer", coder); (lit "coding", coder);
    (lit "programming", coder); (lit "software", coder); (lit "debug", coder);
    (lit "frontend", laptop); (lit "backend", laptop); (lit "devops", laptop);
    (lit "design", palette); (lit "creative", palette); (lit "ui", palette);
    (lit "ux", palette);
    (lit "writer", pen); (lit "writing", pen); (lit "content", pen);
    (lit "analytic", chart); (lit "data", chart); (lit "metric", chart);
    (lit "statistics", chart);
    (lit "chat", speech); (lit "support", speech);
    (lit "communication", speech); (lit "customer", speech);
    (lit "teacher", books); (lit "education", books); (lit "learning", books);
    (lit "tutorial", books);
    (lit "finance", money); (lit "money", money); (lit "trading", money);
    (lit "science", microscope); (lit "research", microscope);
    (lit "assistant", robot); (lit "helper", robot); (lit "copilot", robot);
    (lit "automation", gear) ].

Definition DEFAULT_EMOJI : str := [240; 376; 8221; 167].

(** The [emoji_ranges] table of [_is_valid_emoji] *)
Definition emoji_ranges : list (Z * Z) :=
  [ (0x1F600, 0x1F64F); (0x1F300, 0x1F5FF); (0x1F680, 0x1F6FF);
    (0x1F1E0, 0x1F1FF); (0x2600, 0x26FF); (0x2700, 0x27BF);
    (0x1F900, 0x1F9FF); (0x1FA00, 0x1FA6F); (0x1FA70, 0x1FAFF);
    (0x231A, 0x23FF); (0x2B50, 0x2B55); (0x203C, 0x3299) ].

(** [_is_valid_emoji(text)]: [len] is read only when [text] is truthy. *)
Definition _is_valid_emoji (text : pyval) : result bool :=
  if negb (truthy text) then Ok false
  else
    n <- len text ;;
    if (4 <? n)%nat then Ok false
    else
      chars <- iterate text ;;
      any_in_ranges emoji_ranges chars.

(** *** The title pattern of [_extract_name_from_content]

    [re.search] of "^#\s+(.+)$" under [re.MULTILINE]. [ws_plus s] lists
    what is left of [s] after "\s+", longest run first. *)
Fixpoint ws_plus (s : str) : list str :=
  match s with
  | c :: s' => if isspace c then ws_plus s' ++ [s'] else []
  | [] => []
  end.

(** The characters up to the end of the line: what the greedy ".+" takes,
    after which the end anchor holds. *)
Fixpoint line_of (s : str) : str :=
  match s with
  | c :: s' => if c =? NL then [] else c :: line_of s'
  | [] => []
  end.

(** The match after a "#" at the start of a line: group 1. *)
Definition title_at (s : str) : option str :=
  Compile.first_some
    (fun r => match line_of r with
              | [] => None
              | g => Some g
              end)
    (ws_plus s).

(** The search, position by position; [bol] tells whether the position is
    the start of a line. *)
Fixpoint search_title (bol : bool) (s : str) : option str :=
  match s with
  | [] => None
  | c :: s' =>
      match (if bol && (c =? 35) then title_at s' else None) with
      | Some g => Some g
      | None => search_title (c =? NL) s'
      end
  end.

(** [re.sub] of "[\s_]+" by "-": [in_run] tells whether the previous
    character belonged to a run. *)
Fixpoint sub_runs (in_run : bool) (s : str) : str :=
  match s with
  | [] => []
  | c :: s' =>
      if isspace c || (c =? 95) then
        if in_run then sub_runs true s' else 45 :: sub_runs true s'
      else c :: sub_runs false s'
  end.

(** [group[0]] *)
Definition getitem0 (v : pyval) : result pyval :=
  match v with
  | PStr (c :: _) => Ok (PStr [c])
  | PList (x :: _) => Ok x
  | PStr [] | PList [] => Raise IndexError
  | PDict _ => Raise KeyError
  | _ => Raise TypeError
  end.

Section WithBuiltins.
Context {B : Builtins}.

(** Every fix function returns the record as it leaves it and the boolean
    it returns; [add_fix] is called exactly where [True] is returned, so
    the number of fixes applied is the number of [true]. *)

Definition fix_id (prompt : dict) (index : nat) : dict * bool :=
  let current_id := get prompt (lit "id") PNone in
  let expected_id := str_of_nat (index + 1) in
  if negb (eq_str expected_id current_id) then
    (set (lit "id") (PStr expected_id) prompt, true)
  else if is_int current_id then
    (set (lit "id") (PStr (py_str current_id)) prompt, true)
  else (prompt, false).

Definition _extract_name_from_content (content : pyval) : result (option str) :=
  match content with
  | PStr s =>
      match search_title true s with
      | Some g => Ok (Some (strip (sub_runs false (lower (strip g)))))
      | None => Ok None
      end
  | _ => Raise TypeError
  end.

Definition fix_name (prompt : dict) : result (dict * bool) :=
  let name := get prompt (lit "name") (PStr []) in
  let pid := get prompt (lit "id") (PStr (lit "unknown")) in
  if negb (truthy name) || negb (is_str name) then
    let prompt_content := get prompt (lit "prompt") (PStr []) in
    new_name <- _extract_name_from_content prompt_content ;;
    match new_name with
    | Some (c :: n) => Ok (set (lit "name") (PStr (c :: n)) prompt, true)
    | _ =>
        Ok (set (lit "name") (PStr (lit "prompt-" ++ py_str pid)) prompt, true)
    end
  else Ok (prompt, false).

Definition fix_description (prompt : dict) : dict * bool :=
  match get prompt (lit "description") PNone with
  | PNone => (set (lit "description") (PStr []) prompt, true)
  | PStr _ => (prompt, false)
  | description =>
      (set (lit "description") (PStr (py_str description)) prompt, true)
  end.

Fixpoint first_keyword (table : list (str * str)) (text : str) : str :=
  match table with
  | [] => DEFAULT_EMOJI
  | (pattern, emoji) :: table' =>
      if contains pattern text then emoji else first_keyword table' text
  end.

Definition _generate_emoji (description name : pyval) : str :=
  let text := lower (py_str description ++ lit " " ++ py_str name) in
  first_keyword EMOJI_FIXES text.

Definition fix_emoji (prompt : dict) : result (dict * bool) :=
  let emoji := get prompt (lit "emoji") (PStr []) in
  let description := get prompt (lit "description") (PStr []) in
  let name := get prompt (lit "name") (PStr []) in
  valid <- (if negb (truthy emoji) then Ok false else _is_valid_emoji emoji) ;;
  if negb valid then
    Ok (set (lit "emoji") (PStr (_generate_emoji description name)) prompt, true)
  else Ok (prompt, false).

Definition general : pyval := PList [PStr (lit "General")].

(** The filtering loop of [fix_group] *)
Fixpoint filter_group (group : list pyval) : list pyval :=
  match group with
  | [] => []
  | PStr g :: group' =>
      if negb (str_eqb (strip g) []) then PStr (strip g) :: filter_group group'
      else filter_group group'
  | _ :: group' => filter_group group'
  end.

Definition fix_group (prompt : dict) : dict * bool :=
  match get prompt (lit "group") PNone with
  | PNone => (set (lit "group") general prompt, true)
  | PStr g => (set (lit "group") (PList [PStr g]) prompt, true)
  | PList [] => (set (lit "group") general prompt, true)
  | PList group =>
      let fixed_group := filter_group group in
      if (List.length fixed_group =? 0)%nat then
        (set (lit "group") general prompt, true)
      else if negb (List.length fixed_group =? List.length group)%nat then
        (set (lit "group") (PList fixed_group) prompt, true)
      else (prompt, false)
  | _ => (set (lit "group") general prompt, true)
  end.

Definition _generate_minimal_frontmatter (name description group : pyval)
  : result str :=
  category <- (if truthy group then getitem0 group
               else Ok (PStr (lit "General"))) ;;
  Ok (lit "---" ++ [NL]
      ++ lit "description: " ++ py_str description ++ [NL]
      ++ lit "category:" ++ [NL]
      ++ lit "  - " ++ py_str category ++ [NL]
      ++ lit "---").

Definition fix_prompt (prompt : dict) : result (dict * bool) :=
  let prompt_content := get prompt (lit "prompt") (PStr []) in
  let name := get prompt (lit "name") (PStr []) in
  let description := get prompt (lit "description") (PStr []) in
  let group := get prompt (lit "group") general in
  if negb (truthy prompt_content) then
    yaml_frontmatter <- _generate_minimal_frontmatter name description group ;;
    Ok (set (lit "prompt")
          (PStr (yaml_frontmatter ++ [NL; NL] ++ lit "# " ++ py_str name
                 ++ [NL; NL] ++ lit "Your prompt content here."))
          prompt, true)
  else
    match prompt_content with
    | PStr s =>
        if negb (startswith (lit "---") (strip s)) then
          yaml_frontmatter <-
            _generate_minimal_frontmatter name description group ;;
          Ok (set (lit "prompt") (PStr (yaml_frontmatter ++ [NL; NL] ++ s))
                prompt, true)
        else Ok (prompt, false)
    | _ => Ok (set (lit "prompt") (PStr (py_str prompt_content)) prompt, true)
    end.

Definition count (b : bool) : nat := if b then 1%nat else 0%nat.

(** [fix_prompt_object(prompt, index)] with its counter [fixes] *)
Definition fix_prompt_fixes (prompt : dict) (index : nat) : result (dict * nat) :=
  let '(p1, b1) := fix_id prompt index in
  '(p2, b2) <- fix_name p1 ;;
  let '(p3, b3) := fix_description p2 in
  '(p4, b4) <- fix_emoji p3 ;;
  let '(p5, b5) := fix_group p4 in
  '(p6, b6) <- fix_prompt p5 ;;
  Ok (p6, (count b1 + count b2 + count b3 + count b4 + count b5 + count b6)%nat).

Definition fix_prompt_object (prompt : dict) (index : nat) : result (dict * bool) :=
  '(p, fixes) <- fix_prompt_fixes prompt index ;;
  Ok (p, (0 <? fixes)%nat).

(** The loop of [fix_file] over [enumerate(prompts)], from [index] on: the
    records as it leaves them and the number of fixes applied. An exception
    ends the run before anything is written. *)
Fixpoint fix_loop (index : nat) (prompts : list dict) : result (list dict * nat) :=
  match prompts with
  | [] => Ok ([], 0%nat)
  | prompt :: prompts' =>
      '(p, n) <- fix_prompt_fixes prompt index ;;
      '(ps, m) <- fix_loop (S index) prompts' ;;
      Ok (p :: ps, (n + m)%nat)
  end.

(** The records on which no fix function raises: the emoji is a string or
    falsy (so [_is_valid_emoji] never measures a number), and either the
    name is a non-empty string or the prompt is a string or absent (so
    [_extract_name_from_content] is only given text). *)
Definition emoji_is_text (prompt : dict) : bool :=
  let emoji := get prompt (lit "emoji") (PStr []) in
  is_str emoji || negb (truthy emoji).

Definition name_is_set (prompt : dict) : bool :=
  let name := get prompt (lit "name") (PStr []) in
  truthy name && is_str name.

Definition repairable (prompt : dict) : bool :=
  emoji_is_text prompt
  && (name_is_set prompt || is_str (get prompt (lit "prompt") (PStr []))).

(** [fix_file], from the parsed JSON array on: the array it leaves and the
    number of fixes applied. An empty array returns at once. After the loop
    the array is written unless [dry_run] is set: [json.dumps] with
    [ensure_ascii=False] keeps every character and [write_text] encodes
    with UTF-8, which raises [UnicodeEncodeError] on a surrogate. The file
    system is taken to accept the write. *)
Definition fix_file (dry_run : bool) (prompts : list dict)
  : result (list dict * nat) :=
  match prompts with
  | [] => Ok ([], 0%nat)
  | _ =>
      '(fixed, fixes) <- fix_loop 0 prompts ;;
      if dry_run then Ok (fixed, fixes)
      else if utf8_writable fixed then Ok (fixed, fixes)
           else Raise UnicodeEncodeError
  end.

End WithBuiltins.
End Fix.

(** ** Inputs of the worked examples

    The built-ins are CPython's on ASCII text ([ascii_builtins]). *)
Module Examples.

Definition lines (l : list str) : str :=
  match l with
  | [] => []
  | x :: l' => x ++ flat_map (fun y => NL :: y) l'
  end.

(** The document of the specification's first end-to-end scenario *)
Definition doc_scenario1 : str :=
  lines [ lit "---";
          lit "description: " ++ [34] ++ lit "Helps debug frontend code" ++ [34];
          lit "category:";
          lit "  - Development";
          lit "---";
          [];
          lit "# Helper";
          lit "Body text." ].

(** A document whose closing delimiter is directly followed by the body *)
Definition doc_no_blank_line : str :=
  lines [ lit "---"; lit "description: notes"; lit "---"; lit "Body" ].

(** A document whose only category item is the empty string in quotes *)
Definition doc_empty_item : str :=
  lines [ lit "---"; lit "category:"; lit "  - " ++ [34; 34]; lit "---"; [];
          lit "Body" ].

(** A document whose description is made of digits, with an emoji given *)
Definition doc_digits : str :=
  lines [ lit "---"; lit "description: 123"; lit "emoji: X"; lit "---"; [];
          lit "Body" ].

(** The same document without the emoji line *)
Definition doc_digits_no_emoji : str :=
  lines [ lit "---"; lit "description: 123"; lit "---"; []; lit "Body" ].

Definition prompt_text : str :=
  lines [ lit "---"; lit "description: notes"; lit "---"; []; lit "Body" ].

(** A well-formed record *)
Definition good (id : string) : dict :=
  [ (lit "id", PStr (lit id)); (lit "name", PStr (lit "notes"));
    (lit "description", PStr (lit "notes")); (lit "emoji", PStr [9728]);
    (lit "group", PList [PStr (lit "General")]);
    (lit "prompt", PStr prompt_text) ].

(** The record [good "1"] with a field replaced *)
Definition list_emoji : dict := set (lit "emoji") (PList [PStr [9728]]) (good "1").
Definition no_emoji : dict := set (lit "emoji") (PStr []) (good "1").
Definition default_emoji : dict :=
  set (lit "emoji") (PStr Fix.DEFAULT_EMOJI) (good "1").
Definition int_prompt : dict := set (lit "prompt") (PInt 5) (good "1").
Definition str_prompt : dict := set (lit "prompt") (PStr (lit "5")) (good "1").
Definition empty_group : dict := set (lit "group") (PStr []) (good "1").
Definition blank_group : dict := set (lit "group") (PList [PStr []]) (good "1").

(** A record without a name whose prompt is a number *)
Definition nameless_int_prompt : dict :=
  [ (lit "id", PStr (lit "2")); (lit "description", PStr (lit "notes"));
    (lit "emoji", PStr [9728]); (lit "group", PList [PStr (lit "General")]);
    (lit "prompt", PInt 5) ].

(** A well-formed record whose emoji is a number *)
Definition int_emoji : dict := set (lit "emoji") (PInt 5) (good "1").

(** The catalog entry of the specification's second end-to-end scenario *)
Definition scenario2 : dict :=
  [ (lit "id", PInt 5); (lit "name", PStr []); (lit "group", PStr (lit "Finance"));
    (lit "prompt", PStr []); (lit "description", PNone);
    (lit "emoji", PStr (lit "X")) ].

(** Two records with the id ["3"], then a third whose id is given *)
Definition two_threes (third : pyval) : list dict :=
  [ [(lit "id", PStr (lit "3"))]; [(lit "id", PStr (lit "3"))];
    [(lit "id", third)] ].

(** The paths of a directory: a file, a directory whose name ends in .md, a
    file that cannot be read, and another file *)
Definition md_files : list Compile.md_path :=
  [ {| Compile.path_stem := lit "frontend-helper";
       Compile.path_name := lit "frontend-helper.md";
       Compile.path_is_file := true;
       Compile.path_read_text := inl doc_scenario1 |};
    {| Compile.path_stem := lit "archive";
       Compile.path_name := lit "archive.md";
       Compile.path_is_file := false;
       Compile.path_read_text := inr (lit "Is a directory") |};
    {| Compile.path_stem := lit "locked";
       Compile.path_name := lit "locked.md";
       Compile.path_is_file := true;
       Compile.path_read_text := inr (lit "Permission denied") |};
    {| Compile.path_stem := lit "notes";
       Compile.path_name := lit "notes.md";
       Compile.path_is_file := true;
       Compile.path_read_text := inl doc_no_blank_line |} ].

(** A well-formed record whose description holds a surrogate *)
Definition surrogate_description : dict :=
  set (lit "description") (PStr [0xD800]) (good "1").

(** A metadata text with a scalar key and a list-valued key *)
Definition yaml_with_list : str :=
  lines [ lit "description: notes"; lit "category:"; lit "  - Development" ].

(** A well-formed record whose prompt has no frontmatter *)
Definition bare_prompt : dict := set (lit "prompt") (PStr (lit "Body")) (good "1").

End Examples.

(** * Properties *)

(** ** Strings and dictionaries *)

Lemma str_eqb_spec (a b : str) : str_eqb a b = true <-> a = b.
Proof.
  revert b; induction a as [|x a IH]; intros [|y b]; simpl;
    try (split; [discriminate | intros [=]]); try tauto.
  rewrite andb_true_iff, Z.eqb_eq, IH.
  split; [intros [-> ->]; reflexivity | intros [= -> ->]; auto].
Qed.

Lemma str_eqb_refl (a : str) : str_eqb a a = true.
Proof. apply str_eqb_spec; reflexivity. Qed.

Lemma str_eqb_neq (a b : str) : a <> b -> str_eqb a b = false.
Proof.
  intros H; destruct (str_eqb a b) eqn:E; [|reflexivity].
  apply str_eqb_spec in E; contradiction.
Qed.

Lemma str_eqb_sym (a b : str) : str_eqb a b = str_eqb b a.
Proof.
  destruct (str_eqb b a) eqn:E.
  - apply str_eqb_spec in E; subst; apply str_eqb_refl.
  - apply str_eqb_neq; intros ->; rewrite str_eqb_refl in E; discriminate.
Qed.

Lemma lookup_set_same (k : str) (v : pyval) (d : dict) :
  lookup k (set k v d) = Some v.
Proof.
  induction d as [|[k' v'] d IH]; simpl.
  - rewrite str_eqb_refl; reflexivity.
  - destruct (str_eqb k k') eqn:E; simpl; rewrite E; auto.
Qed.

Lemma lookup_set_other (k k' : str) (v : pyval) (d : dict) :
  str_eqb k k' = false -> lookup k (set k' v d) = lookup k d.
Proof.
  intros Hk; induction d as [|[k0 v0] d IH]; simpl.
  - rewrite Hk; reflexivity.
  - destruct (str_eqb k' k0) eqn:E; simpl.
    + apply str_eqb_spec in E; subst k0; rewrite Hk; reflexivity.
    + destruct (str_eqb k k0); auto.
Qed.

Lemma lit_inj (a b : string) : lit a = lit b -> a = b.
Proof.
  unfold lit; intros H.
  rewrite <- (string_of_list_ascii_of_string a),
          <- (string_of_list_ascii_of_string b).
  f_equal.
  revert H; generalize (list_ascii_of_string b) as l2;
    generalize (list_ascii_of_string a) as l1.
  induction l1 as [|x l1 IH]; intros [|y l2]; simpl; intros H;
    try discriminate; auto.
  injection H as Hxy Hl; f_equal; auto.
  apply N2Z.inj in Hxy.
  rewrite <- (ascii_N_embedding x), <- (ascii_N_embedding y), Hxy; reflexivity.
Qed.

Lemma to_uint_nonnil (n : nat) : Nat.to_uint n <> Decimal.Nil.
Proof.
  rewrite <- (Unsigned.of_to n), Unsigned.to_of.
  unfold Decimal.unorm; destruct (Decimal.nzhead _); discriminate.
Qed.

(** Decimal printing maps different numbers to different strings. *)
Lemma str_of_nat_inj (n m : nat) : str_of_nat n = str_of_nat m -> n = m.
Proof.
  unfold str_of_nat; intros H; apply lit_inj in H.
  apply Unsigned.to_uint_inj.
  pose proof (NilZero.usu _ (to_uint_nonnil n)) as Hn.
  pose proof (NilZero.usu _ (to_uint_nonnil m)) as Hm.
  rewrite H in Hn; rewrite Hn in Hm; injection Hm; auto.
Qed.

(** ** The two emoji tests *)

Lemma emoji_ranges_shared : Fix.emoji_ranges = Validate.emoji_ranges.
Proof. reflexivity. Qed.

Lemma any_in_ranges_chars (ranges : list (Z * Z)) (s : str) :
  Validate.any_in_ranges ranges (map (fun c => PStr [c]) s)
  = Ok (existsb (Validate.in_ranges ranges) s).
Proof.
  induction s as [|c s IH]; simpl; [reflexivity|].
  destruct (Validate.in_ranges ranges c); simpl; auto.
Qed.

Lemma looks_like_emoji_str (s : str) :
  Validate._looks_like_emoji (PStr s)
  = Ok (existsb (Validate.in_ranges Validate.emoji_ranges) s).
Proof. unfold Validate._looks_like_emoji; simpl. apply any_in_ranges_chars. Qed.

Lemma is_valid_emoji_str (s : str) :
  Fix._is_valid_emoji (PStr s)
  = Ok ((length s <=? 4)%nat
        && existsb (Validate.in_ranges Validate.emoji_ranges) s).
Proof.
  unfold Fix._is_valid_emoji.
  destruct s as [|c s]; [reflexivity|].
  cbn [truthy str_eqb negb Validate.len bind].
  rewrite Nat.ltb_antisym.
  destruct (length (c :: s) <=? 4)%nat; cbn [negb andb]; [|reflexivity].
  cbn [Validate.iterate bind]. rewrite emoji_ranges_shared.
  apply any_in_ranges_chars.
Qed.

(** C8, as the code has it: on every string the fixer's test is the
    validator's test together with a bound of four code points on the
    length, so the two agree exactly on the strings of at most four code
    points and the fixer rejects every longer string. *)
Theorem valid_emoji_is_short_looks_like (s : str) :
  exists looks : bool,
    Validate._looks_like_emoji (PStr s) = Ok looks
    /\ Fix._is_valid_emoji (PStr s) = Ok ((length s <=? 4)%nat && looks).
Proof.
  exists (existsb (Validate.in_ranges Validate.emoji_ranges) s).
  split; [apply looks_like_emoji_str | apply is_valid_emoji_str].
Qed.

(** C8 fails as stated: five sun symbols pass the validator's test and fail
    the fixer's. *)
Lemma emoji_tests_differ :
  Validate._looks_like_emoji (PStr [9728; 9728; 9728; 9728; 9728]) = Ok true
  /\ Fix._is_valid_emoji (PStr [9728; 9728; 9728; 9728; 9728]) = Ok false.
Proof. split; reflexivity. Qed.

(** ** Ids after repair *)

Section RepairedIds.
Context {B : Builtins}.

Lemma fix_id_sets_id (prompt : dict) (index : nat) :
  get (fst (Fix.fix_id prompt index)) (lit "id") PNone
  = PStr (str_of_nat (index + 1)).
Proof.
  unfold Fix.fix_id, get.
  destruct (lookup (lit "id") prompt) as [v|] eqn:L; cbn [fst].
  - destruct v; cbn [Validate.eq_str negb is_int fst];
      try (rewrite lookup_set_same; reflexivity).
    destruct (str_eqb (str_of_nat (index + 1)) s) eqn:E; cbn [negb fst].
    + apply str_eqb_spec in E; subst s; rewrite L; reflexivity.
    + rewrite lookup_set_same; reflexivity.
  - cbn [Validate.eq_str negb fst]; rewrite lookup_set_same; reflexivity.
Qed.

Ltac keep_id :=
  repeat match goal with
  | H : Ok _ = Ok _ |- _ => injection H as <- <-
  | H : Raise _ = Ok _ |- _ => discriminate H
  | H : (_, _) = (_, _) |- _ => injection H as <- <-
  | |- context [lookup (lit "id") (set _ _ _)] =>
      rewrite lookup_set_other by reflexivity
  | H : context [match ?x with _ => _ end] |- _ => destruct x eqn:?
  | H : context [bind ?m _] |- _ => destruct m eqn:?; cbn [bind] in H
  end; try reflexivity.

Lemma fix_name_keeps_id (prompt p : dict) (b : bool) :
  Fix.fix_name prompt = Ok (p, b) -> lookup (lit "id") p = lookup (lit "id") prompt.
Proof. unfold Fix.fix_name; intros H; keep_id. Qed.

Lemma fix_description_keeps_id (prompt : dict) :
  lookup (lit "id") (fst (Fix.fix_description prompt)) = lookup (lit "id") prompt.
Proof.
  unfold Fix.fix_description.
  destruct (get prompt (lit "description") PNone); cbn [fst];
    try reflexivity; apply lookup_set_other; reflexivity.
Qed.

Lemma fix_emoji_keeps_id (prompt p : dict) (b : bool) :
  Fix.fix_emoji prompt = Ok (p, b) -> lookup (lit "id") p = lookup (lit "id") prompt.
Proof. unfold Fix.fix_emoji; intros H; keep_id. Qed.

Lemma fix_group_keeps_id (prompt : dict) :
  lookup (lit "id") (fst (Fix.fix_group prompt)) = lookup (lit "id") prompt.
Proof.
  unfold Fix.fix_group.
  repeat match goal with
  | |- context [match ?x with _ => _ end] => destruct x
  end; cbn [fst]; try reflexivity; apply lookup_set_other; reflexivity.
Qed.

Lemma fix_prompt_keeps_id (prompt p : dict) (b : bool) :
  Fix.fix_prompt prompt = Ok (p, b) -> lookup (lit "id") p = lookup (lit "id") prompt.
Proof. unfold Fix.fix_prompt; intros H; keep_id. Qed.

Lemma fix_prompt_fixes_id (prompt p : dict) (index n : nat) :
  Fix.fix_prompt_fixes prompt index = Ok (p, n) ->
  get p (lit "id") PNone = PStr (str_of_nat (index + 1)).
Proof.
  unfold Fix.fix_prompt_fixes; intros H.
  pose proof (fix_id_sets_id prompt index) as Hid.
  destruct (Fix.fix_id prompt index) as [p1 b1]; cbn [fst] in Hid.
  destruct (Fix.fix_name p1) as [[p2 b2]|] eqn:H2; cbn [bind] in H; [|discriminate].
  pose proof (fix_description_keeps_id p2) as H3.
  destruct (Fix.fix_description p2) as [p3 b3]; cbn [fst] in H3.
  destruct (Fix.fix_emoji p3) as [[p4 b4]|] eqn:H4; cbn [bind] in H; [|discriminate].
  pose proof (fix_group_keeps_id p4) as H5.
  destruct (Fix.fix_group p4) as [p5 b5]; cbn [fst] in H5.
  destruct (Fix.fix_prompt p5) as [[p6 b6]|] eqn:H6; cbn [bind] in H; [|discriminate].
  injection H as <- _.
  apply fix_name_keeps_id in H2; apply fix_emoji_keeps_id in H4;
    apply fix_prompt_keeps_id in H6.
  unfold get in *. rewrite H6, H5, H4, H3, H2. exact Hid.
Qed.

Lemma fix_loop_sequential (prompts out : list dict) (index n : nat) :
  Fix.fix_loop index prompts = Ok (out, n) ->
  ids_of out = sequential_ids index (length prompts).
Proof.
  revert index out n; induction prompts as [|p ps IH]; intros index out n H.
  - injection H as <- _; reflexivity.
  - cbn [Fix.fix_loop] in H.
    destruct (Fix.fix_prompt_fixes p index) as [[p' k]|] eqn:Hp;
      cbn [bind] in H; [|discriminate].
    destruct (Fix.fix_loop (S index) ps) as [[ps' m]|] eqn:Hl;
      cbn [bind] in H; [|discriminate].
    injection H as <- _.
    cbn [ids_of map length seq sequential_ids].
    rewrite (fix_prompt_fixes_id _ _ Hp). f_equal. exact (IH _ _ _ Hl).
Qed.


End RepairedIds.

(** ** The classifier of compile.py *)

(** With a non-empty description the filename does not reach the search
    text. *)
Lemma generate_emoji_ignores_filename {B : Builtins} (d filename filename' : str) :
  d <> [] ->
  Compile.generate_emoji (PStr d) filename
  = Compile.generate_emoji (PStr d) filename'.
Proof.
  intros Hd; unfold Compile.generate_emoji.
  destruct d; [contradiction | reflexivity].
Qed.

(** C3 fails on the code: for the description "Notes" and the file stem
    "debug-helper" the third rule matches the concatenated text, as the
    specification has it, while [generate_emoji] searches the description
    alone and returns the default symbol. *)
Theorem generate_emoji_drops_filename :
  Compile.generate_emoji (B := ascii_builtins) (PStr (lit "Notes")) (lit "debug-helper")
  = Ok Compile.DEFAULT_EMOJI
  /\ Compile.generate_emoji_spec (B := ascii_builtins) (lit "Notes") (lit "debug-helper")
     = [128104; 8205; 128187]
  /\ Compile.DEFAULT_EMOJI <> [128104; 8205; 128187].
Proof. repeat split; [vm_compute; reflexivity .. | discriminate]. Qed.

(** ** Category normalization *)

(** C6 fails on the code: a sequence whose only element is the empty string
    normalizes to the empty sequence, a document can produce it, and the
    validator reports the compiled record's group as an error. *)
Theorem normalize_category_empty :
  Compile.normalize_category (B := ascii_builtins) (PList [PStr []]) = []
  /\ exists record,
       Compile.compile_file (B := ascii_builtins) (lit "notes") Examples.doc_empty_item
       = Ok record
       /\ lookup (lit "group") record = Some (PList [])
       /\ map Validate.message
            (Validate.errors
               (Validate.check_group_format (B := ascii_builtins) [record]))
          = [lit "Group array is empty"].
Proof.
  split; [reflexivity|].
  eexists; split; [vm_compute; reflexivity|].
  split; vm_compute; reflexivity.
Qed.

(** ** The description of a compiled record *)

(** C7 fails on the code: a description made of digits is compiled to an
    integer, which the validator reports as an error; without an emoji in
    the frontmatter the same description makes [compile_file] raise. *)
Theorem compiled_description_not_string :
  (exists record,
     Compile.compile_file (B := ascii_builtins) (lit "notes") Examples.doc_digits
     = Ok record
     /\ lookup (lit "description") record = Some (PInt 123)
     /\ map Validate.message
          (Validate.errors
             (Validate.check_field_types (B := ascii_builtins)
                (Compile.assign_ids 1 [record])))
        = [lit "Description must be a string, got int"])
  /\ Compile.compile_file (B := ascii_builtins) (lit "notes")
       Examples.doc_digits_no_emoji
     = Raise AttributeError.
Proof.
  split; [|vm_compute; reflexivity].
  eexists; split; [vm_compute; reflexivity|].
  split; vm_compute; reflexivity.
Qed.

(** ** Exceptions of the fixer *)

(** C9 fails on the code: [fix_name] raises [TypeError] on a record without
    a name whose prompt is a number, [fix_emoji] raises it on an emoji that
    is a number, and either exception ends the run over a batch whose other
    records are well formed. *)
Theorem fix_functions_raise :
  Fix.fix_name (B := ascii_builtins) Examples.nameless_int_prompt = Raise TypeError
  /\ Fix.fix_emoji (B := ascii_builtins) Examples.int_emoji = Raise TypeError
  /\ Fix.fix_file (B := ascii_builtins) false
       [Examples.good "1"; Examples.nameless_int_prompt; Examples.good "3"]
     = Raise TypeError
  /\ Fix.fix_file (B := ascii_builtins) false [Examples.int_emoji; Examples.good "2"]
     = Raise TypeError.
Proof. repeat split; vm_compute; reflexivity. Qed.

(** ** Repair followed by validation *)

(** C1 fails on the code: an emoji that is a list holding a pictograph
    passes the fixer's test, so the engine leaves the record as it is, and
    the validator reports an error on the repaired collection. *)
Theorem repaired_collection_has_error :
  Fix.fix_file (B := ascii_builtins) false [Examples.list_emoji]
  = Ok ([Examples.list_emoji], 0%nat)
  /\ exists issues,
       Validate.validate_file (B := ascii_builtins) false [Examples.list_emoji]
       = Ok issues
       /\ map Validate.message (Validate.errors issues)
          = [lit "Emoji must be a string, got list"].
Proof.
  split; [vm_compute; reflexivity|].
  eexists; split; vm_compute; reflexivity.
Qed.

(** ** A second run of the engine *)

(** C2 fails on the code. The default symbol that [fix_emoji] writes fails
    [_is_valid_emoji], so the second run writes it again; a prompt that was
    a number is turned into text by the first run and given a frontmatter by
    the second; a group that was the empty string is wrapped by the first
    run and replaced by the second. *)
Theorem second_run_applies_fixes :
  (Fix.fix_file (B := ascii_builtins) false [Examples.no_emoji]
   = Ok ([Examples.default_emoji], 1%nat)
   /\ Fix._is_valid_emoji (PStr Fix.DEFAULT_EMOJI) = Ok false
   /\ Fix.fix_emoji (B := ascii_builtins) Examples.default_emoji
      = Ok (Examples.default_emoji, true)
   /\ Fix.fix_file (B := ascii_builtins) false [Examples.default_emoji]
      = Ok ([Examples.default_emoji], 1%nat))
  /\ (Fix.fix_file (B := ascii_builtins) false [Examples.int_prompt]
      = Ok ([Examples.str_prompt], 1%nat)
      /\ exists again,
           Fix.fix_file (B := ascii_builtins) false [Examples.str_prompt]
           = Ok (again, 1%nat))
  /\ (Fix.fix_file (B := ascii_builtins) false [Examples.empty_group]
      = Ok ([Examples.blank_group], 1%nat)
      /\ exists again,
           Fix.fix_file (B := ascii_builtins) false [Examples.blank_group]
           = Ok (again, 1%nat)).
Proof.
  repeat split; try (vm_compute; reflexivity);
    eexists; vm_compute; reflexivity.
Qed.

(** ** The prompt field of a compiled record *)

Lemma startswith_skipn (p s : str) :
  startswith p s = true -> s = p ++ skipn (length p) s.
Proof.
  revert s; induction p as [|x p IH]; intros [|y s] H; simpl in *;
    try reflexivity; try discriminate.
  apply andb_true_iff in H as [Hx Hp]. apply Z.eqb_eq in Hx; subst y.
  f_equal; auto.
Qed.

Lemma first_some_In {A C : Type} (f : A -> option C) (l : list A) (c : C) :
  Compile.first_some f l = Some c -> exists a, In a l /\ f a = Some c.
Proof.
  induction l as [|a l IH]; simpl; [discriminate|].
  destruct (f a) eqn:E.
  - intros [= <-]; exists a; auto.
  - intros H; destruct (IH H) as (a' & Hin & Hf); exists a'; auto.
Qed.

(** Every alternative of [ws_nl] splits the text into a run of whitespace,
    a line break and the rest. *)
Lemma ws_nl_sound (s w r : str) :
  In (w, r) (Compile.ws_nl s) -> s = w ++ NL :: r /\ forallb isspace w = true.
Proof.
  revert w r; induction s as [|c s IH]; intros w r H; simpl in H; [tauto|].
  apply in_app_or in H as [H|H].
  - destruct (isspace c) eqn:Hc; [|contradiction].
    apply in_map_iff in H as ([w' r'] & [= <- <-] & Hin).
    destruct (IH _ _ Hin) as [-> Hw]; cbn [fst snd].
    split; [reflexivity | simpl; rewrite Hc; exact Hw].
  - destruct (c =? NL) eqn:Hc; [|contradiction].
    destruct H as [[= <- <-]|[]]. apply Z.eqb_eq in Hc; subst c.
    split; reflexivity.
Qed.

Lemma closing_sound (s w b : str) :
  Compile.closing s = Some (w, b) ->
  s = NL :: lit "---" ++ w ++ NL :: b /\ forallb isspace w = true.
Proof.
  unfold Compile.closing.
  destruct (startswith (NL :: lit "---") s) eqn:Hs; [|discriminate].
  apply startswith_skipn in Hs. change (length (NL :: lit "---")) with 4%nat in Hs.
  intros H. destruct (Compile.ws_nl (skipn 4 s)) as [|[w' b'] l] eqn:Hl;
    simpl in H; [discriminate|]. injection H as -> ->.
  destruct (ws_nl_sound (skipn 4 s) w b) as [Hsk Hw]; [rewrite Hl; left; reflexivity|].
  split; [|exact Hw]. rewrite Hs at 1. rewrite Hsk. reflexivity.
Qed.

Lemma lazy_yaml_sound (s y w b : str) :
  Compile.lazy_yaml s = Some (y, w, b) ->
  s = y ++ NL :: lit "---" ++ w ++ NL :: b /\ forallb isspace w = true.
Proof.
  revert y; induction s as [|c s IH]; intros y.
  - simpl; discriminate.
  - cbn [Compile.lazy_yaml].
    destruct (Compile.closing (c :: s)) as [[w' b']|] eqn:Hc.
    + intros [= <- <- <-]. exact (closing_sound _ Hc).
    + destruct (Compile.lazy_yaml s) as [[[y' w'] b']|]; [|discriminate].
      intros [= <- <- <-]. destruct (IH y' eq_refl) as [-> Hw].
      split; [reflexivity | exact Hw].
Qed.

(** A match of the frontmatter pattern cuts the document into the opening
    delimiter, whitespace, a line break, group 1, a line break, the closing
    delimiter, whitespace, a line break and group 2. *)
Lemma frontmatter_match_sound (content : str) (m : Compile.fm_match) :
  Compile.frontmatter_match content = Some m ->
  content = lit "---" ++ Compile.ws1 m ++ [NL] ++ Compile.yaml_text m ++ [NL]
            ++ lit "---" ++ Compile.ws2 m ++ [NL] ++ Compile.body m
  /\ forallb isspace (Compile.ws1 m) = true
  /\ forallb isspace (Compile.ws2 m) = true.
Proof.
  unfold Compile.frontmatter_match.
  destruct (startswith (lit "---") content) eqn:Hs; [|discriminate].
  apply startswith_skipn in Hs. change (length (lit "---")) with 3%nat in Hs.
  intros H. apply first_some_In in H as ([w r] & Hin & Hf). cbn [fst snd] in Hf.
  destruct (Compile.lazy_yaml r) as [[[y w'] b]|] eqn:Hl; [|discriminate].
  injection Hf as <-. cbn [Compile.ws1 Compile.yaml_text Compile.ws2 Compile.body].
  apply ws_nl_sound in Hin as [Hsk Hw]. apply lazy_yaml_sound in Hl as [-> Hw'].
  split; [|split; assumption].
  rewrite Hs at 1. rewrite Hsk. rewrite <- ?app_assoc. reflexivity.
Qed.

Section CompiledPrompt.
Context {B : Builtins}.

Lemma compile_file_prompt (stem content : str) (record : dict) :
  Compile.compile_file stem content = Ok record ->
  lookup (lit "prompt") record
  = Some (PStr (snd (Compile.parse_yaml_frontmatter content))).
Proof.
  unfold Compile.compile_file.
  destruct (Compile.parse_yaml_frontmatter content) as [frontmatter full].
  match goal with |- bind ?m _ = _ -> _ => destruct m end; cbn [bind];
    [|discriminate].
  intros [= <-]. reflexivity.
Qed.

(** C4, as the code has it. A document on which the frontmatter pattern
    matches is the opening delimiter, whitespace [ws1], a line break, the
    metadata text, a line break, the closing delimiter, whitespace [ws2], a
    line break and the body. Its prompt field is the text rebuilt from the
    metadata text and the body with [ws1] dropped, [ws2] replaced by one
    line break and the whitespace at both ends stripped when the metadata
    parser returned, and the document itself when it raised. It is the
    document verbatim when [ws1] is empty, [ws2] is one line break and the
    document has no whitespace at its ends. *)
Theorem prompt_is_rebuilt (stem content : str) (m : Compile.fm_match) :
  Compile.frontmatter_match content = Some m ->
  content = lit "---" ++ Compile.ws1 m ++ [NL] ++ Compile.yaml_text m ++ [NL]
            ++ lit "---" ++ Compile.ws2 m ++ [NL] ++ Compile.body m
  /\ forallb isspace (Compile.ws1 m ++ Compile.ws2 m) = true
  /\ ((forall frontmatter,
         Compile.simple_yaml_parse (Compile.yaml_text m) = Ok frontmatter ->
         snd (Compile.parse_yaml_frontmatter content)
         = Compile.rebuild (Compile.yaml_text m) (Compile.body m))
      /\ (forall e,
            Compile.simple_yaml_parse (Compile.yaml_text m) = Raise e ->
            snd (Compile.parse_yaml_frontmatter content) = content))
  /\ (forall record,
        Compile.compile_file stem content = Ok record ->
        lookup (lit "prompt") record
        = Some (PStr (snd (Compile.parse_yaml_frontmatter content))))
  /\ (Compile.ws1 m = [] -> Compile.ws2 m = [NL] -> strip content = content ->
      snd (Compile.parse_yaml_frontmatter content) = content).
Proof.
  intros Hm. destruct (frontmatter_match_sound _ Hm) as (Hc & Hw1 & Hw2).
  assert (Hok : forall frontmatter,
            Compile.simple_yaml_parse (Compile.yaml_text m) = Ok frontmatter ->
            snd (Compile.parse_yaml_frontmatter content)
            = Compile.rebuild (Compile.yaml_text m) (Compile.body m)).
  { intros fm E. unfold Compile.parse_yaml_frontmatter. rewrite Hm, E.
    reflexivity. }
  assert (Hraise : forall e,
            Compile.simple_yaml_parse (Compile.yaml_text m) = Raise e ->
            snd (Compile.parse_yaml_frontmatter content) = content).
  { intros e E. unfold Compile.parse_yaml_frontmatter. rewrite Hm, E.
    reflexivity. }
  split; [exact Hc|].
  split; [rewrite forallb_app, Hw1, Hw2; reflexivity|].
  split; [split; [exact Hok | exact Hraise]|].
  split; [intros record; apply compile_file_prompt|].
  intros H1 H2 Hstrip.
  destruct (Compile.simple_yaml_parse (Compile.yaml_text m)) as [fm|e] eqn:E;
    [rewrite (Hok fm eq_refl) | exact (Hraise e eq_refl)].
  unfold Compile.rebuild. rewrite <- Hstrip. f_equal.
  rewrite Hc. rewrite H1, H2. rewrite <- ?app_assoc. reflexivity.
Qed.

End CompiledPrompt.

(** C4 fails as stated: when the body follows the closing delimiter
    directly, the prompt field has a blank line between them that the
    document does not have. *)
Lemma prompt_not_verbatim :
  Compile.frontmatter_match Examples.doc_no_blank_line
  = Some {| Compile.ws1 := []; Compile.yaml_text := lit "description: notes";
            Compile.ws2 := []; Compile.body := lit "Body" |}
  /\ exists record,
       Compile.compile_file (B := ascii_builtins) (lit "notes")
         Examples.doc_no_blank_line = Ok record
       /\ lookup (lit "prompt") record = Some (PStr Examples.prompt_text)
       /\ Examples.prompt_text <> Examples.doc_no_blank_line.
Proof.
  split; [vm_compute; reflexivity|].
  eexists; split; [vm_compute; reflexivity|].
  split; [vm_compute; reflexivity | vm_compute; discriminate].
Qed.

(** ** Duplicate ids in the validator's report *)

Lemma num_eqb_sym (a b : Validate.num) : Validate.num_eqb a b = Validate.num_eqb b a.
Proof.
  destruct a, b; simpl; try reflexivity.
  - rewrite (Z.min_comm e e0). apply Z.eqb_sym.
  - destruct neg, neg0; reflexivity.
Qed.

Lemma key_eqb_sym (a b : pyval) : Validate.key_eqb a b = Validate.key_eqb b a.
Proof.
  destruct a as [|x|x|x|x|x|x], b as [|y|y|y|y|y|y];
    try reflexivity; try apply str_eqb_sym;
    unfold Validate.key_eqb;
    try (destruct (Validate.num_of _), (Validate.num_of _);
         try reflexivity; apply num_eqb_sym).
Qed.

Lemma startswith_app (p s : str) : startswith p (p ++ s) = true.
Proof. induction p as [|x p IH]; simpl; [|rewrite Z.eqb_refl]; auto. Qed.

Section DuplicateIds.
Context {B : Builtins}.

Lemma duplicate_error_is_duplicate (pid : pyval) :
  Validate.is_duplicate_error (Validate.duplicate_error pid) = true.
Proof.
  unfold Validate.is_duplicate_error, Validate.duplicate_error, Validate.add_issue.
  cbn [Validate.message Validate.is_error Validate.level].
  rewrite startswith_app. reflexivity.
Qed.

Lemma sequence_issues_not_duplicate (i : nat) (pid : pyval) :
  filter Validate.is_duplicate_error (Validate.sequence_issues i pid) = [].
Proof.
  unfold Validate.sequence_issues. destruct pid; try reflexivity.
  destruct (negb _); reflexivity.
Qed.

Lemma check_id_step_hashable (i : nat) (prompt : dict) (id_set : list pyval) :
  (forall v, lookup (lit "id") prompt = Some v -> Validate.hashable v = true) ->
  Validate.check_id_step i prompt id_set
  = Ok (Validate.issues_of i prompt id_set, Validate.set_after prompt id_set).
Proof.
  intros H.
  unfold Validate.check_id_step, Validate.issues_of, Validate.set_after,
    Validate.tracked_id.
  destruct (lookup (lit "id") prompt) as [v|]; [|reflexivity].
  specialize (H v eq_refl).
  destruct v; try discriminate H; try reflexivity.
  destruct (isdigit s); reflexivity.
Qed.

Lemma check_id_loop_hashable (prompts : list dict) :
  (forall p v, In p prompts -> lookup (lit "id") p = Some v ->
               Validate.hashable v = true) ->
  forall start id_set,
  exists added,
    Validate.check_id_loop start prompts id_set = Ok added
    /\ length added = length prompts
    /\ forall k p, nth_error prompts k = Some p ->
         nth_error added k
         = Some (Validate.issues_of (start + k) p
                   (Validate.ids_before k prompts id_set)).
Proof.
  induction prompts as [|q prompts IH]; intros H start id_set.
  - exists []. repeat split. intros [|k] p Hk; discriminate Hk.
  - cbn [Validate.check_id_loop].
    rewrite check_id_step_hashable by (intros v; apply H; left; reflexivity).
    cbn [bind].
    destruct (IH (fun p v Hp => H p v (or_intror Hp)) (S start)
                 (Validate.set_after q id_set)) as (added & E & L & N).
    rewrite E. cbn [bind].
    exists (Validate.issues_of start q id_set :: added).
    split; [reflexivity|]. split; [simpl; rewrite L; reflexivity|].
    intros [|k] p Hk; simpl in Hk.
    + injection Hk as <-. rewrite Nat.add_0_r. reflexivity.
    + rewrite Nat.add_succ_r. exact (N k p Hk).
Qed.

Lemma ids_before_In (x : pyval) (prompts : list dict) :
  forall k id_set,
  In x (Validate.ids_before k prompts id_set) <->
  In x id_set
  \/ exists a pa, (a < k)%nat /\ nth_error prompts a = Some pa
                  /\ Validate.tracked_id pa = Some x.
Proof.
  unfold Validate.ids_before.
  induction prompts as [|q prompts IH]; intros k id_set.
  - rewrite firstn_nil; simpl. split; [auto|].
    intros [H|(a & pa & _ & Hn & _)]; [exact H | destruct a; discriminate Hn].
  - destruct k as [|k]; simpl.
    + split; [auto|]. intros [H|(a & pa & Ha & _)]; [exact H | lia].
    + rewrite IH. unfold Validate.set_after. split.
      * intros [H|(a & pa & Ha & Hn & Ht)].
        -- destruct (Validate.tracked_id q) as [v|] eqn:Hq; [|auto].
           destruct H as [<-|H]; [|auto].
           right; exists 0%nat, q; repeat split; [lia | auto].
        -- right; exists (S a), pa; repeat split; [lia | auto | auto].
      * intros [H|(a & pa & Ha & Hn & Ht)].
        -- left. destruct (Validate.tracked_id q); [right|]; exact H.
        -- destruct a as [|a]; simpl in Hn.
           ++ injection Hn as <-. left. rewrite Ht. left; reflexivity.
           ++ right; exists a, pa; repeat split; [lia | auto | auto].
Qed.

Lemma filter_concat_single {A : Type} (f : A -> bool) (x : A) (j : nat) :
  forall ll : list (list A),
  (j < length ll)%nat ->
  (forall k l, nth_error ll k = Some l ->
               filter f l = if (k =? j)%nat then [x] else []) ->
  filter f (concat ll) = [x].
Proof.
  assert (Hnone : forall ll : list (list A),
            (forall k l, nth_error ll k = Some l -> filter f l = []) ->
            filter f (concat ll) = []).
  { induction ll as [|l ll IH]; intros H; [reflexivity|].
    rewrite concat_cons, filter_app, (H 0%nat l eq_refl). simpl.
    apply IH. intros k l' Hk. exact (H (S k) l' Hk). }
  induction j as [|j IH]; intros [|l ll] Hj H; simpl in Hj; try lia.
  - rewrite concat_cons, filter_app, (H 0%nat l eq_refl). simpl.
    rewrite Hnone; [reflexivity|].
    intros k l' Hk. exact (H (S k) l' Hk).
  - rewrite concat_cons, filter_app, (H 0%nat l eq_refl). simpl.
    apply IH; [lia|]. intros k l' Hk. exact (H (S k) l' Hk).
Qed.

(** X17: the duplicate test of the id check. Take a collection in which no
    id is a list or a dict, the records at positions [i < j] bear the same
    id [d] made of
    digits, and no other two records bear equal ids (ids that are absent,
    null or strings not made of digits do not count). Then the id check
    completes; the second of the two records adds the one duplicate-id
    error of the report, the first adds none, and each of the two adds the
    sequence warning exactly when [d] is not the decimal string of its
    1-based position. *)
Theorem duplicate_pair_report (prompts : list dict) (i j : nat)
    (pi pj : dict) (d : str) :
  (i < j)%nat ->
  nth_error prompts i = Some pi -> lookup (lit "id") pi = Some (PStr d) ->
  nth_error prompts j = Some pj -> lookup (lit "id") pj = Some (PStr d) ->
  isdigit d = true ->
  (forall p v, In p prompts -> lookup (lit "id") p = Some v ->
               Validate.hashable v = true) ->
  (forall a b pa pb va vb,
     (a < b)%nat ->
     nth_error prompts a = Some pa -> Validate.tracked_id pa = Some va ->
     nth_error prompts b = Some pb -> Validate.tracked_id pb = Some vb ->
     Validate.key_eqb va vb = true -> a = i /\ b = j) ->
  exists added,
    Validate.check_id_loop 1 prompts [] = Ok added
    /\ Validate.check_id_sequence prompts = Ok (concat added)
    /\ length added = length prompts
    /\ nth_error added i
       = Some (if str_eqb d (str_of_nat (S i)) then []
               else [Validate.sequence_warning d (str_of_nat (S i))])
    /\ nth_error added j
       = Some (Validate.duplicate_error (PStr d)
               :: (if str_eqb d (str_of_nat (S j)) then []
                   else [Validate.sequence_warning d (str_of_nat (S j))]))
    /\ filter Validate.is_duplicate_error (concat added)
       = [Validate.duplicate_error (PStr d)].
Proof.
  intros Hij Hi Hidi Hj Hidj Hd Hhash Huniq.
  destruct (check_id_loop_hashable prompts Hhash 1 []) as (added & E & L & N).
  assert (Hti : Validate.tracked_id pi = Some (PStr d))
    by (unfold Validate.tracked_id; rewrite Hidi, Hd; reflexivity).
  assert (Htj : Validate.tracked_id pj = Some (PStr d))
    by (unfold Validate.tracked_id; rewrite Hidj, Hd; reflexivity).
  assert (Hseq : forall k, Validate.sequence_issues (S k) (PStr d)
            = if str_eqb d (str_of_nat (S k)) then []
              else [Validate.sequence_warning d (str_of_nat (S k))]).
  { intros k; unfold Validate.sequence_issues.
    destruct (str_eqb d (str_of_nat (S k))); reflexivity. }
  (* whether the record at position k finds its id in the set *)
  assert (Hdup : forall k pk vk,
            nth_error prompts k = Some pk -> Validate.tracked_id pk = Some vk ->
            existsb (Validate.key_eqb vk) (Validate.ids_before k prompts [])
            = (k =? j)%nat).
  { intros k pk vk Hk Htk.
    destruct (existsb _ _) eqn:Ex.
    - apply existsb_exists in Ex as (x & Hx & Hkey).
      apply ids_before_In in Hx as [[]|(a & pa & Ha & Hna & Hta)].
      rewrite key_eqb_sym in Hkey.
      destruct (Huniq a k pa pk x vk Ha Hna Hta Hk Htk Hkey) as [_ ->].
      symmetry; apply Nat.eqb_refl.
    - destruct (k =? j)%nat eqn:Ekj; [|reflexivity].
      apply Nat.eqb_eq in Ekj; subst k.
      rewrite Hj in Hk; injection Hk as <-.
      rewrite Htj in Htk; injection Htk as <-.
      assert (Hin : In (PStr d) (Validate.ids_before j prompts [])).
      { apply ids_before_In. right. exists i, pi. auto. }
      assert (Ht : existsb (Validate.key_eqb (PStr d))
                     (Validate.ids_before j prompts []) = true).
      { apply existsb_exists. exists (PStr d). split; [exact Hin|].
        simpl. apply str_eqb_refl. }
      rewrite Ht in Ex; discriminate Ex. }
  exists added. split; [exact E|].
  split; [unfold Validate.check_id_sequence; rewrite E; reflexivity|].
  split; [exact L|].
  split; [|split].
  - rewrite (N i pi Hi). unfold Validate.issues_of.
    rewrite Hti, (Hdup i pi (PStr d) Hi Hti).
    replace (i =? j)%nat with false by (symmetry; apply Nat.eqb_neq; lia).
    simpl app. rewrite <- Hseq. reflexivity.
  - rewrite (N j pj Hj). unfold Validate.issues_of.
    rewrite Htj, (Hdup j pj (PStr d) Hj Htj), Nat.eqb_refl.
    simpl app. rewrite <- Hseq. reflexivity.
  - apply filter_concat_single with (j := j).
    + rewrite L. apply nth_error_Some. rewrite Hj. discriminate.
    + intros k l Hk.
      assert (Hlt : (k < length prompts)%nat)
        by (rewrite <- L; apply nth_error_Some; rewrite Hk; discriminate).
      apply nth_error_Some in Hlt.
      destruct (nth_error prompts k) as [pk|] eqn:Hpk; [|contradiction].
      rewrite (N k pk Hpk) in Hk. injection Hk as <-.
      unfold Validate.issues_of.
      destruct (Validate.tracked_id pk) as [vk|] eqn:Htk.
      * rewrite (Hdup k pk vk Hpk Htk), filter_app, sequence_issues_not_duplicate.
        destruct (k =? j)%nat eqn:Ekj; [|reflexivity].
        apply Nat.eqb_eq in Ekj; subst k.
        rewrite Hj in Hpk; injection Hpk as <-.
        rewrite Htj in Htk; injection Htk as <-.
        cbn [filter]. rewrite duplicate_error_is_duplicate. reflexivity.
      * assert (Hkj : (k =? j)%nat = false).
        { apply Nat.eqb_neq; intros ->. rewrite Hj in Hpk; injection Hpk as <-.
          rewrite Htj in Htk; discriminate Htk. }
        rewrite Hkj.
        destruct (lookup (lit "id") pk) as [[| | | |s| |]|]; reflexivity.
Qed.

End DuplicateIds.

(** C10 fails on the code: with two records of id "3" and a third record
    whose id is a list, [pid in id_set] raises [TypeError], so the id check
    and the whole of [validate_file] end without a report, although
    [check_field_types] reports the same id as an error of its own. Without
    the third record the check reports what the claim says. *)
Theorem id_check_raises_on_list_id :
  Validate.check_id_sequence (B := ascii_builtins) (Examples.two_threes (PList []))
  = Raise TypeError
  /\ Validate.validate_file (B := ascii_builtins) true
       (Examples.two_threes (PList []))
     = Raise TypeError
  /\ map Validate.message
       (Validate.errors
          (Validate.check_field_types (B := ascii_builtins)
             (Examples.two_threes (PList []))))
     = [lit "ID must be a string, got list"]
  /\ option_map (map Validate.message)
       (match Validate.check_id_sequence (B := ascii_builtins)
                (firstn 2 (Examples.two_threes (PList []))) with
        | Ok issues => Some issues
        | Raise _ => None
        end)
     = Some [lit "ID is not sequential: expected '1', got '3'";
             lit "Duplicate ID found: '3'";
             lit "ID is not sequential: expected '2', got '3'"].
Proof. repeat split; vm_compute; reflexivity. Qed.

(** ** The theorems at concrete inputs *)

(** [prompt_is_rebuilt] on the document of the first end-to-end scenario,
    whose prompt field is the document verbatim. *)
Lemma prompt_is_rebuilt_witness :
  snd (Compile.parse_yaml_frontmatter (B := ascii_builtins) Examples.doc_scenario1)
  = Examples.doc_scenario1.
Proof.
  refine (proj2 (proj2 (proj2 (proj2
            (@prompt_is_rebuilt ascii_builtins (lit "frontend-helper")
               Examples.doc_scenario1
               {| Compile.ws1 := [];
                  Compile.yaml_text :=
                    Examples.lines
                      [ lit "description: " ++ [34]
                          ++ lit "Helps debug frontend code" ++ [34];
                        lit "category:"; lit "  - Development" ];
                  Compile.ws2 := [NL];
                  Compile.body := Examples.lines [lit "# Helper"; lit "Body text."] |}
               _)))) _ _ _);
    vm_compute; reflexivity.
Defined.

(** [duplicate_pair_report] on two records with the id ["3"] followed by
    one whose id is the number 3. *)
Lemma duplicate_pair_report_witness :
  exists added,
    Validate.check_id_loop (B := ascii_builtins) 1 (Examples.two_threes (PInt 3)) []
    = Ok added
    /\ Validate.check_id_sequence (B := ascii_builtins) (Examples.two_threes (PInt 3))
       = Ok (concat added)
    /\ length added = 3%nat
    /\ nth_error added 0
       = Some [Validate.sequence_warning (lit "3") (lit "1")]
    /\ nth_error added 1
       = Some [Validate.duplicate_error (B := ascii_builtins) (PStr (lit "3"));
               Validate.sequence_warning (lit "3") (lit "2")]
    /\ filter Validate.is_duplicate_error (concat added)
       = [Validate.duplicate_error (B := ascii_builtins) (PStr (lit "3"))].
Proof.
  apply (@duplicate_pair_report ascii_builtins (Examples.two_threes (PInt 3))
           0%nat 1%nat [(lit "id", PStr (lit "3"))] [(lit "id", PStr (lit "3"))]
           (lit "3")).
  - lia.
  - reflexivity.
  - reflexivity.
  - reflexivity.
  - reflexivity.
  - reflexivity.
  - intros p v [<-|[<-|[<-|[]]]] [= <-]; reflexivity.
  - intros a b pa pb va vb Hab Ha Hta Hb Htb Hkey.
    destruct a as [|[|[|a]]]; simpl in Ha; try (destruct a; discriminate Ha);
      injection Ha as <-; injection Hta as <-;
      destruct b as [|[|[|b]]]; simpl in Hb; try (destruct b; discriminate Hb);
      try lia; injection Hb as <-; injection Htb as <-;
      try discriminate Hkey; split; reflexivity.
Defined.

(** * Further properties of the three scripts *)

(** ** The frontmatter pattern matches exactly the delimited documents *)

Lemma ws_nl_complete (w r : str) :
  forallb isspace w = true -> In (w, r) (Compile.ws_nl (w ++ NL :: r)).
Proof.
  induction w as [|c w IH]; intros Hw.
  - simpl. apply in_or_app. right. left. reflexivity.
  - simpl in Hw. apply andb_true_iff in Hw as [Hc Hw].
    cbn [app Compile.ws_nl]. rewrite Hc. apply in_or_app. left.
    apply in_map_iff. exists (w, r). split; [reflexivity | auto].
Qed.

Lemma closing_complete (w b : str) :
  forallb isspace w = true ->
  Compile.closing (NL :: lit "---" ++ w ++ NL :: b) <> None.
Proof.
  intros Hw. unfold Compile.closing.
  change (NL :: lit "---" ++ w ++ NL :: b)
    with ((NL :: lit "---") ++ (w ++ NL :: b)).
  rewrite startswith_app.
  change (skipn 4 ((NL :: lit "---") ++ w ++ NL :: b)) with (w ++ NL :: b).
  pose proof (ws_nl_complete w b Hw) as Hin.
  destruct (Compile.ws_nl (w ++ NL :: b)); [destruct Hin | discriminate].
Qed.

Lemma lazy_yaml_complete (y w b : str) :
  forallb isspace w = true ->
  Compile.lazy_yaml (y ++ NL :: lit "---" ++ w ++ NL :: b) <> None.
Proof.
  intros Hw. induction y as [|c y IH].
  - pose proof (closing_complete w b Hw) as Hc.
    cbn [app]. cbn [app] in Hc.
    destruct (Compile.closing (NL :: lit "---" ++ w ++ NL :: b)) as [[w' b']|] eqn:E;
      [|contradiction].
    change (NL :: lit "---" ++ w ++ NL :: b)
      with (NL :: (lit "---" ++ w ++ NL :: b)) in *.
    cbn [Compile.lazy_yaml]. rewrite E. discriminate.
  - cbn [app Compile.lazy_yaml].
    destruct (Compile.closing (c :: y ++ NL :: lit "---" ++ w ++ NL :: b))
      as [[w' b']|]; [discriminate|].
    destruct (Compile.lazy_yaml (y ++ NL :: lit "---" ++ w ++ NL :: b))
      as [[[y' w'] b']|]; [discriminate | contradiction].
Qed.

Lemma first_some_complete {A C : Type} (f : A -> option C) (l : list A) (a : A) :
  In a l -> f a <> None -> Compile.first_some f l <> None.
Proof.
  induction l as [|x l IH]; intros Hin Hf; [destruct Hin|].
  simpl. destruct (f x) eqn:E; [discriminate|].
  destruct Hin as [->|Hin]; [contradiction | auto].
Qed.

(** X1: the frontmatter pattern of compile.py matches a document exactly
    when the document is the opening delimiter, a run of whitespace, a line
    break, any text, a line break, the closing delimiter, a run of
    whitespace, a line break and any text. *)
Theorem frontmatter_match_iff_delimited (content : str) :
  (exists m, Compile.frontmatter_match content = Some m)
  <-> exists w1 y w2 b,
        content = lit "---" ++ w1 ++ [NL] ++ y ++ [NL] ++ lit "---" ++ w2
                  ++ [NL] ++ b
        /\ forallb isspace w1 = true /\ forallb isspace w2 = true.
Proof.
  split.
  - intros [m Hm]. destruct (frontmatter_match_sound _ Hm) as (Hc & H1 & H2).
    exists (Compile.ws1 m), (Compile.yaml_text m), (Compile.ws2 m), (Compile.body m).
    auto.
  - intros (w1 & y & w2 & b & -> & H1 & H2).
    destruct (Compile.frontmatter_match _) as [m|] eqn:E; [exists m; reflexivity|].
    exfalso. revert E. unfold Compile.frontmatter_match.
    rewrite startswith_app.
    change (skipn 3 (lit "---" ++ w1 ++ [NL] ++ y ++ [NL] ++ lit "---" ++ w2
                     ++ [NL] ++ b))
      with (w1 ++ NL :: (y ++ NL :: lit "---" ++ w2 ++ NL :: b)).
    apply first_some_complete
      with (a := (w1, y ++ NL :: lit "---" ++ w2 ++ NL :: b)).
    + apply ws_nl_complete; exact H1.
    + cbn [snd]. pose proof (lazy_yaml_complete y w2 b H2) as Hl.
      destruct (Compile.lazy_yaml _) as [[[y' w'] b']|]; [discriminate | contradiction].
Qed.

(** ** Exceptions of the frontmatter parser *)

Lemma lookup_set_present (k k' : str) (v : pyval) (d : dict) :
  lookup k d <> None -> lookup k (set k' v d) <> None.
Proof.
  intros H. destruct (str_eqb k k') eqn:E.
  - apply str_eqb_spec in E; subst k'. rewrite lookup_set_same. discriminate.
  - rewrite lookup_set_other by exact E. exact H.
Qed.

Section ParserExceptions.
Context {B : Builtins}.

Lemma list_line_total (st : option str * dict) (line : str) :
  Compile.key_present st ->
  exists st', Compile.list_line st line = Ok st' /\ Compile.key_present st'.
Proof.
  destruct st as [ck rwl]. unfold Compile.key_present; cbn [fst snd]. intros Hk.
  unfold Compile.list_line.
  destruct (contains (lit ":") line && negb (startswith (lit " ") line)).
  { eexists; split; [reflexivity|]. cbn [fst snd].
    intros k [= <-]. rewrite lookup_set_same. discriminate. }
  destruct ck as [k|].
  2:{ cbn [andb]. eexists; split; [reflexivity|]. intros k [=]. }
  specialize (Hk k eq_refl).
  assert (Hkeep : forall v k0, Some k = Some k0 -> lookup k0 (set k v rwl) <> None).
  { intros v k0 [= <-]. rewrite lookup_set_same. discriminate. }
  unfold Compile.getitem.
  destruct (lookup k rwl) as [cur|] eqn:L; [|contradiction].
  assert (Hsame : forall k0, Some k = Some k0 -> lookup k0 rwl <> None).
  { intros k0 [= <-]. rewrite L. discriminate. }
  destruct (negb (str_eqb k [])); cbn [andb].
  2:{ eexists; split; [reflexivity | exact Hsame]. }
  destruct (startswith (lit "- ") (strip line)); cbn [bind].
  - destruct cur; eexists; (split; [reflexivity|]); cbn [fst snd]; auto.
  - destruct cur; try (eexists; split; [reflexivity | exact Hsame]).
    destruct (split1 58 line) as [[a b]|];
      eexists; (split; [reflexivity|]); cbn [fst snd]; auto.
Qed.

(** The second loop never raises: [result_with_lists[current_key]] always
    finds its key. *)
Lemma list_pass_total (lines : list str) (st : option str * dict) :
  Compile.key_present st -> exists st', Compile.list_pass st lines = Ok st'.
Proof.
  revert st; induction lines as [|line lines IH]; intros st Hst.
  - exists st; reflexivity.
  - cbn [Compile.list_pass].
    destruct (list_line_total line Hst) as (st' & -> & Hst'). cbn [bind].
    exact (IH st' Hst').
Qed.

Lemma scalar_line_raises (res : dict) (line : str) (e : exn) :
  Compile.scalar_line res line = Raise e ->
  e = ValueError
  /\ exists value, isdigit value = true /\ int_of_str value = None.
Proof.
  unfold Compile.scalar_line.
  repeat match goal with
  | |- context [if ?c then _ else _] => destruct c eqn:?; try discriminate
  | |- context [match split1 ?a ?b with _ => _ end] =>
      destruct (split1 a b) as [[? ?]|]; try discriminate
  | |- context [match int_of_str ?v with _ => _ end] =>
      destruct (int_of_str v) eqn:?; try discriminate
  end.
  intros [= <-]. split; [reflexivity|]. eexists; split; eassumption.
Qed.

Lemma scalar_pass_raises (lines : list str) (res : dict) (e : exn) :
  Compile.scalar_pass res lines = Raise e ->
  e = ValueError
  /\ exists value, isdigit value = true /\ int_of_str value = None.
Proof.
  revert res; induction lines as [|line lines IH]; intros res; [discriminate|].
  cbn [Compile.scalar_pass].
  destruct (Compile.scalar_line res line) as [r|e'] eqn:E; cbn [bind].
  - apply IH.
  - intros [= <-]. exact (scalar_line_raises _ _ E).
Qed.

(** X2: the only exception [simple_yaml_parse] raises is the [ValueError]
    of [int] on a value that [isdigit] accepts; the second loop never fails
    to find its current key. So the parser returns a mapping for every text
    when [int] accepts every string that [isdigit] accepts. *)
Theorem simple_yaml_parse_raises_only_int (text : str) :
  (forall e, Compile.simple_yaml_parse text = Raise e ->
     e = ValueError
     /\ exists value, isdigit value = true /\ int_of_str value = None)
  /\ ((forall value, isdigit value = true -> int_of_str value <> None) ->
      exists frontmatter, Compile.simple_yaml_parse text = Ok frontmatter).
Proof.
  assert (Hraise : forall e, Compile.simple_yaml_parse text = Raise e ->
            e = ValueError
            /\ exists value, isdigit value = true /\ int_of_str value = None).
  { intros e. unfold Compile.simple_yaml_parse.
    destruct (Compile.scalar_pass [] (split NL text)) as [res|e'] eqn:E; cbn [bind].
    - destruct (list_pass_total (split NL text) (st := (None, []))) as ([ck rwl] & ->).
      + intros k [=].
      + cbn [bind]. discriminate.
    - intros [= <-]. exact (scalar_pass_raises _ _ E). }
  split; [exact Hraise|].
  intros Hint.
  destruct (Compile.simple_yaml_parse text) as [fm|e] eqn:E; [exists fm; reflexivity|].
  destruct (Hraise e eq_refl) as (_ & value & Hd & Hi).
  destruct (Hint value Hd Hi).
Qed.

End ParserExceptions.

(** ** The merge of the two passes *)

Lemma lookup_None (k : str) (d : dict) :
  ~ In k (map fst d) -> lookup k d = None.
Proof.
  induction d as [|[k' v] d IH]; simpl; intros H; [reflexivity|].
  rewrite str_eqb_neq by (intros ->; apply H; left; reflexivity).
  apply IH. intros Hin; apply H; right; exact Hin.
Qed.

Lemma set_keys (k : str) (v : pyval) (d : dict) :
  map fst (set k v d) = if existsb (str_eqb k) (map fst d) then map fst d
                        else map fst d ++ [k].
Proof.
  induction d as [|[k' v'] d IH]; simpl; [reflexivity|].
  destruct (str_eqb k k'); simpl; [reflexivity|].
  rewrite IH. destruct (existsb (str_eqb k) (map fst d)); reflexivity.
Qed.

Lemma set_unique_keys (k : str) (v : pyval) (d : dict) :
  NoDup (map fst d) -> NoDup (map fst (set k v d)).
Proof.
  intros H. rewrite set_keys.
  destruct (existsb (str_eqb k) (map fst d)) eqn:E; [exact H|].
  apply NoDup_app; [exact H | repeat constructor; intros [] |].
  intros x Hx [<-|[]].
  assert (existsb (str_eqb k) (map fst d) = true)
    by (apply existsb_exists; exists k; split; [exact Hx | apply str_eqb_refl]).
  congruence.
Qed.

Lemma merge_lookup (k : str) (items : dict) :
  NoDup (map fst items) ->
  forall res,
  lookup k (Compile.merge res items)
  = match lookup k items with
    | Some PNone | None => lookup k res
    | Some v => Some v
    end.
Proof.
  induction items as [|[k0 v0] items IH]; intros Hnd res; [reflexivity|].
  simpl in Hnd. inversion Hnd as [|? ? Hnotin Hnd']; subst.
  cbn [Compile.merge lookup]. rewrite (IH Hnd').
  destruct (str_eqb k k0) eqn:E.
  - apply str_eqb_spec in E; subst k0. rewrite (lookup_None _ _ Hnotin).
    destruct v0; try reflexivity; apply lookup_set_same.
  - destruct (lookup k items) as [[]|]; try reflexivity;
      destruct v0; try reflexivity; apply lookup_set_other; exact E.
Qed.

Section ParserMerge.
Context {B : Builtins}.

Lemma list_line_unique_keys (st st' : option str * dict) (line : str) :
  NoDup (map fst (snd st)) -> Compile.list_line st line = Ok st' ->
  NoDup (map fst (snd st')).
Proof.
  destruct st as [ck rwl], st' as [ck' rwl']; cbn [snd]; intros Hnd.
  unfold Compile.list_line, Compile.getitem.
  destruct (contains (lit ":") line && negb (startswith (lit " ") line)).
  { intros [= _ <-]. apply set_unique_keys; exact Hnd. }
  destruct (match ck with Some k => negb (str_eqb k []) | None => false end);
    cbn [andb]; [|intros [= _ <-]; exact Hnd].
  destruct (startswith (lit "- ") (strip line));
    (destruct (lookup _ rwl) as [cur|]; cbn [bind]; [|discriminate]).
  - destruct cur; intros [= _ <-]; try exact Hnd; apply set_unique_keys; exact Hnd.
  - destruct cur; try (intros [= _ <-]; exact Hnd).
    destruct (split1 58 line) as [[a b]|]; intros [= _ <-];
      [apply set_unique_keys|]; exact Hnd.
Qed.

Lemma list_pass_unique_keys (lines : list str) (st st' : option str * dict) :
  NoDup (map fst (snd st)) -> Compile.list_pass st lines = Ok st' ->
  NoDup (map fst (snd st')).
Proof.
  revert st; induction lines as [|line lines IH]; intros st Hnd.
  - intros [= <-]; exact Hnd.
  - cbn [Compile.list_pass].
    destruct (Compile.list_line st line) as [st1|] eqn:E; cbn [bind]; [|discriminate].
    apply IH. exact (list_line_unique_keys _ _ Hnd E).
Qed.

(** X3: the mapping [simple_yaml_parse] returns gives every key the value of
    the list-aware second pass when that pass gave it a value other than
    [None], and the value of the scalar first pass otherwise. *)
Theorem simple_yaml_parse_prefers_lists (text : str) (res rwl : dict)
    (current_key : option str) :
  Compile.scalar_pass [] (split NL text) = Ok res ->
  Compile.list_pass (None, []) (split NL text) = Ok (current_key, rwl) ->
  exists frontmatter,
    Compile.simple_yaml_parse text = Ok frontmatter
    /\ forall k,
         lookup k frontmatter
         = match lookup k rwl with
           | Some PNone | None => lookup k res
           | Some v => Some v
           end.
Proof.
  intros Hs Hl. exists (Compile.merge res rwl). split.
  - unfold Compile.simple_yaml_parse. rewrite Hs; cbn [bind]. rewrite Hl.
    reflexivity.
  - intros k. apply merge_lookup.
    exact (@list_pass_unique_keys _ (None, []) _ (NoDup_nil _) Hl).
Qed.

End ParserMerge.

(** ** Category normalization and the classifier *)

(** X4: [normalize_category] returns the empty sequence exactly on a list
    whose elements are all falsy (the empty list among them). On a value
    that is not a list the result has exactly one element: the string
    itself for a string, "General" for [None] and for every other value. On
    a list it has one element for each truthy element of the list. *)
Theorem normalize_category_empty_iff {B : Builtins} (category : pyval) :
  (Compile.normalize_category category = []
   <-> exists l, category = PList l
                 /\ forallb (fun c => negb (truthy c)) l = true)
  /\ (is_list category = false ->
      Compile.normalize_category category
      = [match category with PStr s => s | _ => lit "General" end])
  /\ (forall l, category = PList l ->
      length (Compile.normalize_category category) = length (filter truthy l)).
Proof.
  split; [split|split].
  - destruct category; simpl; try discriminate.
    intros H. exists l. split; [reflexivity|].
    induction l as [|c l IH]; [reflexivity|].
    simpl in *. destruct (truthy c); [discriminate | auto].
  - intros (l & -> & H). simpl.
    induction l as [|c l IH]; [reflexivity|].
    simpl in *. apply andb_true_iff in H as [Hc Hl].
    destruct (truthy c); [discriminate | auto].
  - destruct category; try reflexivity. discriminate.
  - intros l ->. simpl. apply length_map.
Qed.

(** X5: the rule table is scanned in order. The symbol returned is that of
    a rule whose pattern is found in the text and before which no rule's
    pattern is found; when no pattern is found it is the default symbol. *)
Theorem first_match_is_first (table : list (Re.re * str)) (text : str) :
  (exists before pattern after emoji,
     table = before ++ (pattern, emoji) :: after
     /\ Forall (fun rule => Re.search (fst rule) text = false) before
     /\ Re.search pattern text = true
     /\ Compile.first_match table text = emoji)
  \/ (Forall (fun rule => Re.search (fst rule) text = false) table
      /\ Compile.first_match table text = Compile.DEFAULT_EMOJI).
Proof.
  induction table as [|[pattern emoji] table IH].
  - right. split; [constructor | reflexivity].
  - cbn [Compile.first_match].
    destruct (Re.search pattern text) eqn:E.
    + left. exists [], pattern, table, emoji. repeat split; auto.
    + destruct IH as [(before & p & after & e & -> & Hb & Hp & He)|[Hall Hd]].
      * left. exists ((pattern, emoji) :: before), p, after, e.
        repeat split; auto.
      * right. split; [constructor; auto | exact Hd].
Qed.

(** ** compile_directory *)

Section CompileDirectory.
Context {B : Builtins}.

Lemma compile_file_name (stem content : str) (record : dict) :
  Compile.compile_file stem content = Ok record ->
  lookup (lit "name") record = Some (PStr stem).
Proof.
  unfold Compile.compile_file.
  destruct (Compile.parse_yaml_frontmatter content) as [frontmatter full].
  match goal with |- bind ?m _ = _ -> _ => destruct m end; cbn [bind];
    [|discriminate].
  intros [= <-]. reflexivity.
Qed.

Lemma assign_ids_spec (compiled : list dict) (idx : nat) :
  ids_of (Compile.assign_ids (S idx) compiled)
  = sequential_ids idx (length compiled)
  /\ map (fun p => lookup (lit "name") p) (Compile.assign_ids (S idx) compiled)
     = map (fun p => lookup (lit "name") p) compiled.
Proof.
  revert idx; induction compiled as [|p ps IH]; intros idx; [split; reflexivity|].
  destruct (IH (S idx)) as [Hi Hn].
  cbn [Compile.assign_ids ids_of map length seq sequential_ids]. split.
  - unfold get at 1. rewrite lookup_set_same, Nat.add_1_r. f_equal. exact Hi.
  - rewrite lookup_set_other by reflexivity. f_equal. exact Hn.
Qed.

Lemma compile_loop_spec (md_files : list Compile.md_path) :
  forall errors compiled errors',
  Compile.compile_loop md_files errors = Ok (compiled, errors') ->
  map (fun p => lookup (lit "name") p) compiled
  = map (fun f => Some (PStr (Compile.path_stem f)))
        (filter Compile.readable md_files)
  /\ length errors'
     = (length errors + length (filter Compile.unreadable md_files))%nat.
Proof.
  induction md_files as [|f fs IH]; intros errors compiled errors'.
  - intros [= <- <-]. split; [reflexivity | simpl; lia].
  - cbn [Compile.compile_loop filter].
    unfold Compile.readable at 1, Compile.unreadable at 1, Compile.compile_path.
    destruct (Compile.path_is_file f); cbn [negb andb]; [|apply IH].
    destruct (Compile.path_read_text f) as [content|e].
    + destruct (Compile.compile_file (Compile.path_stem f) content)
        as [p|] eqn:Hp; cbn [bind]; [|discriminate].
      destruct (Compile.compile_loop fs errors) as [[cs es]|] eqn:El;
        cbn [bind]; [|discriminate].
      destruct (IH _ _ _ El) as [Hn He].
      pose proof (compile_file_name _ _ Hp) as Hname.
      destruct p as [|kv p]; [discriminate Hname|].
      cbn [truthy]. intros [= <- <-]. split; [|exact He].
      cbn [map]. rewrite Hname, Hn. reflexivity.
    + cbn [bind].
      destruct (Compile.compile_loop fs _) as [[cs es]|] eqn:El;
        cbn [bind]; [|discriminate].
      destruct (IH _ _ _ El) as [Hn He].
      intros [= <- <-]. split; [exact Hn|].
      rewrite He, length_app. simpl. lia.
Qed.

(** X6: when [compile_directory] returns, its records are those of the paths
    that are files and could be read, in the order of the paths and each
    named by its path's stem; a path that is not a file is skipped, and a
    file that cannot be read gives one error message and no record. The ids
    are the decimal strings of 1 to the number of records, and there is no
    warning. *)
Theorem compile_directory_records (md_files : list Compile.md_path)
    (out : list dict) (errors warnings : list str) :
  Compile.compile_directory md_files = Ok (out, errors, warnings) ->
  map (fun p => lookup (lit "name") p) out
  = map (fun f => Some (PStr (Compile.path_stem f)))
        (filter Compile.readable md_files)
  /\ length out = length (filter Compile.readable md_files)
  /\ ids_of out = sequential_ids 0 (length (filter Compile.readable md_files))
  /\ length errors = length (filter Compile.unreadable md_files)
  /\ warnings = [].
Proof.
  unfold Compile.compile_directory.
  destruct md_files as [|f fs].
  { intros [= <- <- <-]. repeat split. }
  destruct (Compile.compile_loop (f :: fs) []) as [[compiled es]|] eqn:E;
    cbn [bind]; [|discriminate].
  intros [= <- <- <-].
  destruct (compile_loop_spec _ _ E) as [Hnames Herr].
  destruct (assign_ids_spec compiled 0) as [Hi Hn].
  assert (Hlen : length compiled = length (filter Compile.readable (f :: fs))).
  { rewrite <- (length_map (fun p => lookup (lit "name") p) compiled), Hnames.
    apply length_map. }
  split; [rewrite Hn; exact Hnames|].
  split.
  { rewrite <- Hlen, <- (length_map (fun p => get p (lit "id") PNone)).
    fold (ids_of (Compile.assign_ids 1 compiled)). rewrite Hi.
    unfold sequential_ids. rewrite length_map, length_seq. reflexivity. }
  split; [rewrite Hi, Hlen; reflexivity|].
  split; [exact Herr | reflexivity].
Qed.

End CompileDirectory.

(** ** The validator's report *)

Section Report.
Context {B : Builtins}.

Lemma levels_counted (issues : list Validate.ValidationIssue) :
  Forall Validate.known_level issues ->
  (length (filter Validate.is_error issues)
   + length (filter Validate.is_warning issues)
   + length (filter Validate.is_info issues) = length issues)%nat.
Proof.
  induction 1 as [|i issues Hi _ IH]; [reflexivity|].
  cbn [filter length].
  unfold Validate.known_level, Validate.is_error, Validate.is_warning,
    Validate.is_info in *.
  destruct (str_eqb (Validate.level i) (lit "error")) eqn:E1.
  - apply str_eqb_spec in E1. rewrite E1. cbn [length]. simpl str_eqb. lia.
  - destruct (str_eqb (Validate.level i) (lit "warning")) eqn:E2.
    + apply str_eqb_spec in E2. rewrite E2. cbn [length]. simpl str_eqb. lia.
    + simpl in Hi. rewrite Hi. cbn [length]. lia.
Qed.

Ltac known :=
  repeat match goal with
  | |- Forall _ [] => constructor
  | |- Forall _ (_ :: _) => constructor; [reflexivity|]
  | |- Forall _ (_ ++ _) => apply Forall_app; split
  | |- Forall _ (if ?c then _ else _) => destruct c
  | |- Forall _ (match ?x with _ => _ end) => destruct x
  end.

Lemma required_known (prompts : list dict) :
  Forall Validate.known_level (Validate.check_required_fields prompts).
Proof.
  unfold Validate.check_required_fields.
  apply Forall_flat_map, Forall_forall. intros p _.
  unfold Validate.check_required_prompt.
  apply Forall_flat_map, Forall_forall. intros f _. known.
Qed.

Lemma types_known (prompts : list dict) :
  Forall Validate.known_level (Validate.check_field_types prompts).
Proof.
  unfold Validate.check_field_types.
  apply Forall_flat_map, Forall_forall. intros p _.
  unfold Validate.check_types_prompt, Validate.type_check. known.
Qed.

Lemma id_loop_known (prompts : list dict) :
  forall i id_set added,
  Validate.check_id_loop i prompts id_set = Ok added ->
  Forall Validate.known_level (concat added).
Proof.
  induction prompts as [|p ps IH]; intros i id_set added.
  - intros [= <-]. constructor.
  - cbn [Validate.check_id_loop].
    destruct (Validate.check_id_step i p id_set) as [[issues id_set']|] eqn:E;
      cbn [bind]; [|discriminate].
    destruct (Validate.check_id_loop (S i) ps id_set') as [rest|] eqn:El;
      cbn [bind]; [|discriminate].
    intros [= <-]. rewrite concat_cons. apply Forall_app. split; [|eauto].
    revert E. unfold Validate.check_id_step, Validate.set_mem,
      Validate.sequence_issues.
    repeat match goal with
    | |- context [match ?x with _ => _ end] => destruct x
    end; cbn [bind]; try discriminate; intros [= <- _]; known.
Qed.

Lemma for_each_known (f : dict -> result (list Validate.ValidationIssue)) :
  (forall p l, f p = Ok l -> Forall Validate.known_level l) ->
  forall prompts issues,
  Validate.for_each f prompts = Ok issues -> Forall Validate.known_level issues.
Proof.
  intros Hf. induction prompts as [|p ps IH]; intros issues.
  - intros [= <-]. constructor.
  - cbn [Validate.for_each].
    destruct (f p) as [l|] eqn:E; cbn [bind]; [|discriminate].
    destruct (Validate.for_each f ps) as [rest|]; cbn [bind]; [|discriminate].
    intros [= <-]. apply Forall_app. split; [exact (Hf _ _ E) | auto].
Qed.

Lemma emoji_known (verbose : bool) (p : dict) (l : list Validate.ValidationIssue) :
  Validate.check_emoji_prompt verbose p = Ok l -> Forall Validate.known_level l.
Proof.
  unfold Validate.check_emoji_prompt.
  repeat match goal with
  | |- context [if ?c then _ else _] => destruct c
  | |- context [bind ?m _] => destruct m; cbn [bind]
  | |- context [match ?x with _ => _ end] => destruct x
  end; try discriminate; intros [= <-]; known.
Qed.

Lemma group_items_known (pid : pyval) (group : list pyval) :
  forall i, Forall Validate.known_level (Validate.check_group_items pid i group).
Proof.
  induction group as [|g group IH]; intros i; [constructor|].
  cbn [Validate.check_group_items]. apply Forall_app. split; [|apply IH].
  known.
Qed.

Lemma group_known (prompts : list dict) :
  Forall Validate.known_level (Validate.check_group_format prompts).
Proof.
  unfold Validate.check_group_format.
  apply Forall_flat_map, Forall_forall. intros p _.
  unfold Validate.check_group_prompt.
  destruct (lookup (lit "group") p) as [[| | | |g|l|]|]; known;
    apply group_items_known.
Qed.

Lemma prompt_known (p : dict) (l : list Validate.ValidationIssue) :
  Validate.check_prompt_prompt p = Ok l -> Forall Validate.known_level l.
Proof.
  unfold Validate.check_prompt_prompt.
  destruct (negb (truthy _)); [intros [= <-]; known|].
  destruct (get p (lit "prompt") (PStr [])); try discriminate.
  intros [= <-]. known.
Qed.

(** X7: every issue of a report is an error, a warning or an info, so the
    three numbers [print_report] returns add up to the number of issues;
    the exit status is 1 exactly when one of the issues is an error. *)
Theorem report_counts_every_issue (verbose : bool) (prompts : list dict)
    (issues : list Validate.ValidationIssue) :
  Validate.validate_file verbose prompts = Ok issues ->
  (let '(errors, warnings, infos) := Validate.print_report issues in
   (errors + warnings + infos = length issues)%nat)
  /\ (Validate.exit_status issues = 1 <-> Validate.errors issues <> [])
  /\ (Validate.exit_status issues = 0 <-> Validate.errors issues = []).
Proof.
  intros H.
  assert (Hk : Forall Validate.known_level issues).
  { revert H. unfold Validate.validate_file.
    destruct prompts as [|p ps]; [intros [= <-]; constructor|].
    unfold Validate.check_id_sequence.
    destruct (Validate.check_id_loop 1 (p :: ps) []) as [added|] eqn:Ei;
      cbn [bind]; [|discriminate].
    destruct (Validate.check_emoji_validity verbose (p :: ps)) as [emojis|] eqn:Ee;
      cbn [bind]; [|discriminate].
    destruct (Validate.check_prompt_content (p :: ps)) as [contents|] eqn:Ec;
      cbn [bind]; [|discriminate].
    intros [= <-].
    apply Forall_app; split; [exact (required_known (p :: ps))|].
    apply Forall_app; split; [exact (types_known (p :: ps))|].
    apply Forall_app; split; [exact (id_loop_known _ _ _ Ei)|].
    apply Forall_app; split; [eapply for_each_known; [apply (emoji_known verbose) | exact Ee]|].
    apply Forall_app; split; [exact (group_known (p :: ps))|].
    eapply for_each_known; [apply prompt_known | exact Ec]. }
  split; [exact (levels_counted Hk)|].
  unfold Validate.exit_status, Validate.print_report, Validate.errors.
  destruct (filter Validate.is_error issues); cbn [length Nat.ltb Nat.leb];
    split; split; intros; try discriminate; try reflexivity; try congruence.
Qed.

End Report.

(** ** The id check on sequential ids *)

Section SequentialIds.
Context {B : Builtins}.

Lemma id_loop_sequential (out : list dict) :
  (forall k, isdigit (str_of_nat k) = true) ->
  forall start id_set,
  ids_of out = sequential_ids start (length out) ->
  Forall (fun x => exists a, (a < start)%nat /\ x = PStr (str_of_nat (a + 1)))
         id_set ->
  exists added,
    Validate.check_id_loop (S start) out id_set = Ok added /\ concat added = [].
Proof.
  intros Hdigit. induction out as [|p out IH]; intros start id_set Hids Hset.
  - exists []. split; reflexivity.
  - cbn [ids_of map length sequential_ids seq] in Hids.
    injection Hids as Hp Hrest.
    assert (Hid : lookup (lit "id") p = Some (PStr (str_of_nat (start + 1)))).
    { unfold get in Hp. destruct (lookup (lit "id") p); [f_equal; exact Hp | discriminate]. }
    assert (Hfresh : existsb (Validate.key_eqb (PStr (str_of_nat (start + 1)))) id_set
                     = false).
    { destruct (existsb _ id_set) eqn:E; [|reflexivity].
      apply existsb_exists in E as (x & Hx & Hkey).
      rewrite Forall_forall in Hset. destruct (Hset x Hx) as (a & Ha & ->).
      simpl in Hkey. apply str_eqb_spec, str_of_nat_inj in Hkey. lia. }
    cbn [Validate.check_id_loop]. unfold Validate.check_id_step.
    rewrite Hid, Hdigit. cbn [negb]. unfold Validate.set_mem.
    cbn [Validate.hashable bind]. rewrite Hfresh.
    destruct (IH (S start) (PStr (str_of_nat (start + 1)) :: id_set))
      as (added & -> & Hnil).
    + exact Hrest.
    + constructor.
      * exists start. split; [lia | reflexivity].
      * eapply Forall_impl; [|exact Hset].
        intros x (a & Ha & ->). exists a. split; [lia | reflexivity].
    + cbn [bind]. eexists. split; [reflexivity|].
      rewrite concat_cons, Hnil. unfold Validate.sequence_issues.
      rewrite Nat.add_1_r, str_eqb_refl. reflexivity.
Qed.

(** X8: on a collection whose ids are the decimal strings of 1 to N in
    order, the id check completes and raises no issue at all: no error and
    no sequence warning. It needs [isdigit] to accept a decimal string. *)
Theorem sequential_ids_pass (prompts : list dict) :
  (forall k, isdigit (str_of_nat k) = true) ->
  ids_of prompts = sequential_ids 0 (length prompts) ->
  Validate.check_id_sequence prompts = Ok [].
Proof.
  intros Hdigit Hids.
  destruct (id_loop_sequential prompts Hdigit (start := 0%nat) Hids (Forall_nil _))
    as (added & E & Hnil).
  unfold Validate.check_id_sequence. rewrite E. cbn [bind]. rewrite Hnil.
  reflexivity.
Qed.

End SequentialIds.

(** ** What the validator's error tests ask of a record *)

Lemma errors_app (a b : list Validate.ValidationIssue) :
  Validate.errors (a ++ b) = [] <-> Validate.errors a = [] /\ Validate.errors b = [].
Proof.
  unfold Validate.errors. rewrite filter_app. split.
  - apply app_eq_nil.
  - intros [-> ->]. reflexivity.
Qed.

Section WellTyped.
Context {B : Builtins}.

Lemma required_no_error (q : dict) :
  Validate.errors (Validate.check_required_prompt q) = []
  <-> forallb (fun f => has_key f q) Validate.required_fields = true.
Proof.
  unfold Validate.check_required_prompt, Validate.required_fields.
  cbn [flat_map forallb].
  destruct (has_key (lit "id") q), (has_key (lit "name") q),
    (has_key (lit "description") q), (has_key (lit "emoji") q),
    (has_key (lit "group") q), (has_key (lit "prompt") q);
    cbn [negb app andb]; split; intros H; try reflexivity; discriminate H.
Qed.

Lemma type_check_no_error (q : dict) (pid : pyval) (key : str)
    (ok : pyval -> bool) (what expected hint : str) :
  Validate.errors (Validate.type_check q pid key ok what expected hint) = []
  <-> match lookup key q with Some v => ok v = true | None => True end.
Proof.
  unfold Validate.type_check.
  destruct (lookup key q) as [v|]; [|split; auto].
  destruct (ok v); cbn [negb]; split; intros H; try reflexivity; discriminate H.
Qed.

Lemma group_items_no_error (pid : pyval) (group : list pyval) :
  forall i, Validate.errors (Validate.check_group_items pid i group) = [].
Proof.
  induction group as [|g group IH]; intros i; [reflexivity|].
  cbn [Validate.check_group_items]. apply errors_app. split; [|apply IH].
  destruct g; try reflexivity. destruct (str_eqb (strip s) []); reflexivity.
Qed.

Lemma emoji_check_no_error (verbose : bool) (q : dict) (e d : str) :
  lookup (lit "emoji") q = Some (PStr e) ->
  lookup (lit "description") q = Some (PStr d) ->
  (exists l, Validate.check_emoji_prompt verbose q = Ok l /\ Validate.errors l = [])
  <-> e <> [].
Proof.
  intros He Hd. unfold Validate.check_emoji_prompt, get. rewrite He, Hd.
  destruct e as [|c e]; cbn [truthy str_eqb negb].
  - split; [|intros H; contradiction].
    intros (l & [= <-] & H). discriminate H.
  - split; [intros _; discriminate|intros _].
    rewrite looks_like_emoji_str. cbn [bind].
    unfold Validate._suggest_better_emoji.
    destruct (existsb _ (c :: e)), verbose, d as [|c' d];
      cbn [negb andb str_eqb bind];
      try (eexists; split; reflexivity);
      destruct (find _ Validate.emoji_suggestions) as [[sug kws]|];
      cbn [option_map fst];
      try (eexists; split; reflexivity);
      destruct (negb (str_eqb sug []) && negb (Validate.eq_str sug (PStr (c :: e))));
      eexists; split; try reflexivity; apply errors_app; split; reflexivity.
Qed.

Lemma prompt_check_no_error (q : dict) (s : str) :
  lookup (lit "prompt") q = Some (PStr s) ->
  (exists l, Validate.check_prompt_prompt q = Ok l /\ Validate.errors l = [])
  <-> s <> [].
Proof.
  intros Hs. unfold Validate.check_prompt_prompt, get. rewrite Hs.
  destruct s as [|c s]; cbn [truthy str_eqb negb].
  - split; [|intros H; contradiction].
    intros (l & [= <-] & H). discriminate H.
  - split; [intros _; discriminate|intros _].
    eexists. split; [reflexivity|].
    apply errors_app. split.
    + destruct (negb _); reflexivity.
    + destruct (contains _ _); [|reflexivity].
      destruct (Validate.frontmatter_head _); [|reflexivity].
      apply errors_app. split;
        match goal with |- context [if ?c then _ else _] => destruct c end;
        reflexivity.
Qed.

(** X9: the error-level tests of the five checks other than the id check
    accept a record exactly when it is [well_typed]: the six fields are
    present, [group] is a non-empty list, the five others are strings, and
    [emoji] and [prompt] are not empty. An empty name or description, and
    whatever the elements of the group are, raise no error. *)
Theorem no_error_iff_well_typed (verbose : bool) (q : dict) :
  Validate.well_typed q = true
  <-> Validate.errors (Validate.check_required_prompt q) = []
      /\ Validate.errors (Validate.check_types_prompt q) = []
      /\ (exists l, Validate.check_emoji_prompt verbose q = Ok l
                    /\ Validate.errors l = [])
      /\ Validate.errors (Validate.check_group_prompt q) = []
      /\ (exists l, Validate.check_prompt_prompt q = Ok l
                    /\ Validate.errors l = []).
Proof.
  rewrite required_no_error.
  unfold Validate.check_types_prompt.
  rewrite !errors_app, !type_check_no_error.
  unfold Validate.required_fields, has_key. cbn [forallb].
  unfold Validate.well_typed, Validate.check_group_prompt.
  destruct (lookup (lit "id") q) as [vid|] eqn:Lid;
    [|split; [discriminate | intros (H & _); discriminate H]].
  destruct (lookup (lit "name") q) as [vname|] eqn:Lname;
    [|split; [destruct vid; discriminate | intros (H & _); discriminate H]].
  destruct (lookup (lit "description") q) as [vdesc|] eqn:Ldesc;
    [|split; [destruct vid, vname; discriminate | intros (H & _); discriminate H]].
  destruct (lookup (lit "emoji") q) as [vemoji|] eqn:Lemoji;
    [|split; [destruct vid, vname, vdesc; discriminate
             | intros (H & _); discriminate H]].
  destruct (lookup (lit "group") q) as [vgroup|] eqn:Lgroup;
    [|split; [destruct vid, vname, vdesc, vemoji as [| | | |[|]| |]; discriminate
             | intros (H & _); discriminate H]].
  destruct (lookup (lit "prompt") q) as [vprompt|] eqn:Lprompt;
    [|split; [destruct vid, vname, vdesc, vemoji as [| | | |[|]| |],
                vgroup as [| | | | |[|]|]; discriminate
             | intros (H & _); discriminate H]].
  cbn [andb].
  destruct vid; try (split; [discriminate | intros (_ & (H & _) & _); discriminate H]).
  destruct vname;
    try (split; [discriminate | intros (_ & (_ & H & _) & _); discriminate H]).
  destruct vdesc;
    try (split; [discriminate | intros (_ & (_ & _ & H & _) & _); discriminate H]).
  destruct vemoji as [| | | |e| |];
    try (split; [discriminate | intros (_ & (_ & _ & _ & H & _) & _); discriminate H]).
  destruct vgroup as [| | | | |g|];
    try (split; [destruct e; discriminate
                | intros (_ & (_ & _ & _ & _ & H & _) & _); discriminate H]).
  destruct vprompt as [| | | |p| |];
    try (split; [destruct e, g; discriminate
                | intros (_ & (_ & _ & _ & _ & _ & H) & _); discriminate H]).
  rewrite (emoji_check_no_error verbose q Lemoji Ldesc).
  rewrite (prompt_check_no_error q Lprompt).
  rewrite errors_app.
  split.
  - intros H. destruct e as [|c e], g as [|x g], p as [|c' p]; try discriminate H.
    repeat split; try discriminate; cbn [is_str is_list]; auto.
    apply group_items_no_error.
  - intros (_ & _ & He & (Hg & _) & Hp).
    destruct e as [|c e]; [contradiction|].
    destruct p as [|c' p]; [contradiction|].
    destruct g as [|x g]; [discriminate Hg | reflexivity].
Qed.

End WellTyped.

(** ** Repair of a record *)

Lemma str_of_nat_nonempty (n : nat) : str_of_nat n <> [].
Proof.
  unfold str_of_nat. pose proof (to_uint_nonnil n) as H.
  destruct (Nat.to_uint n); try contradiction; discriminate.
Qed.

Lemma first_keyword_nonempty (table : list (str * str)) (text : str) :
  Forall (fun rule => snd rule <> []) table ->
  Fix.first_keyword table text <> [].
Proof.
  induction 1 as [|[pattern emoji] table He _ IH]; simpl; [discriminate|].
  destruct (contains pattern text); auto.
Qed.

Lemma EMOJI_FIXES_nonempty : Forall (fun rule => snd rule <> []) Fix.EMOJI_FIXES.
Proof. repeat constructor; discriminate. Qed.

Lemma get_some (p : dict) (k : str) (dflt v : pyval) :
  get p k dflt = v -> v <> dflt -> lookup k p = Some v.
Proof.
  unfold get. destruct (lookup k p); intros <- H; [reflexivity | contradiction].
Qed.

(** ** Stripping *)

Lemma lstrip_cases (s : str) :
  lstrip s = [] \/ exists c u, lstrip s = c :: u /\ isspace c = false.
Proof.
  induction s as [|c s IH]; [left; reflexivity|].
  simpl. destruct (isspace c) eqn:E; [exact IH|].
  right. exists c, s. auto.
Qed.

Lemma lstrip_app_nonspace (a b : str) (c : Z) :
  isspace c = false -> lstrip (a ++ c :: b) = lstrip a ++ c :: b.
Proof.
  intros Hc. induction a as [|x a IH]; simpl; [rewrite Hc; reflexivity|].
  destruct (isspace x); [exact IH | reflexivity].
Qed.

Lemma rstrip_cons_nonspace (c : Z) (u : str) :
  isspace c = false -> rstrip (c :: u) = c :: rstrip u.
Proof.
  intros Hc. unfold rstrip. simpl rev.
  rewrite lstrip_app_nonspace by exact Hc. rewrite rev_app_distr. reflexivity.
Qed.

Lemma rstrip_idempotent (s : str) : rstrip (rstrip s) = rstrip s.
Proof.
  unfold rstrip. rewrite rev_involutive. f_equal.
  induction (rev s) as [|c t IH]; [reflexivity|].
  simpl. destruct (isspace c) eqn:E; [exact IH|]. simpl. rewrite E. reflexivity.
Qed.

(** [strip] of a stripped string is the string. *)
Lemma strip_idempotent (s : str) : strip (strip s) = strip s.
Proof.
  unfold strip.
  destruct (lstrip_cases s) as [->|(c & u & -> & Hc)]; [reflexivity|].
  rewrite rstrip_cons_nonspace by exact Hc. simpl lstrip. rewrite Hc.
  rewrite <- rstrip_cons_nonspace by exact Hc. apply rstrip_idempotent.
Qed.

Lemma strip_dashes (r : str) :
  startswith (lit "---") (strip (lit "---" ++ r)) = true.
Proof.
  unfold strip. change (lit "---" ++ r) with (45 :: 45 :: 45 :: r).
  change (lstrip (45 :: 45 :: 45 :: r)) with (45 :: 45 :: 45 :: r).
  rewrite !rstrip_cons_nonspace by reflexivity. reflexivity.
Qed.

Lemma Forall_lstrip (P : Z -> Prop) (s : str) : Forall P s -> Forall P (lstrip s).
Proof.
  induction 1 as [|c s Hc Hs IH]; simpl; [constructor|].
  destruct (isspace c); [exact IH | constructor; assumption].
Qed.

Lemma Forall_strip (P : Z -> Prop) (s : str) : Forall P s -> Forall P (strip s).
Proof.
  intros H. unfold strip, rstrip.
  apply Forall_rev, Forall_lstrip, Forall_rev, Forall_lstrip, H.
Qed.

Section RepairRecord.
Context {B : Builtins}.

Lemma py_str_nonempty (v : pyval) :
  (forall x, repr x <> []) -> truthy v = true -> py_str v <> [].
Proof.
  intros Hrepr. destruct v; simpl; try discriminate; auto.
  - destruct b; discriminate.
  - intros _. unfold str_of_Z. destruct (z <? 0); [discriminate|].
    apply str_of_nat_nonempty.
  - destruct s; [discriminate | intros _; discriminate].
Qed.

(** Each fix function writes its own field only. *)

Lemma fix_id_frame (p : dict) (index : nat) (k : str) :
  str_eqb k (lit "id") = false ->
  lookup k (fst (Fix.fix_id p index)) = lookup k p.
Proof.
  intros Hk. unfold Fix.fix_id.
  destruct (negb _); [apply lookup_set_other; exact Hk|].
  destruct (is_int _); [apply lookup_set_other; exact Hk | reflexivity].
Qed.

Ltac frame Hk :=
  repeat match goal with
  | H : Ok _ = Ok _ |- _ => injection H as <- <-
  | H : Raise _ = Ok _ |- _ => discriminate H
  | |- context [lookup _ (set _ _ _)] => rewrite lookup_set_other by exact Hk
  | H : context [match ?x with _ => _ end] |- _ => destruct x eqn:?
  | H : context [bind ?m _] |- _ => destruct m eqn:?; cbn [bind] in H
  end; try reflexivity.

Lemma fix_name_frame (p q : dict) (b : bool) (k : str) :
  Fix.fix_name p = Ok (q, b) -> str_eqb k (lit "name") = false ->
  lookup k q = lookup k p.
Proof. unfold Fix.fix_name; intros H Hk; frame Hk. Qed.

Lemma fix_description_frame (p : dict) (k : str) :
  str_eqb k (lit "description") = false ->
  lookup k (fst (Fix.fix_description p)) = lookup k p.
Proof.
  intros Hk. unfold Fix.fix_description.
  destruct (get p (lit "description") PNone); cbn [fst];
    try reflexivity; apply lookup_set_other; exact Hk.
Qed.

Lemma fix_emoji_frame (p q : dict) (b : bool) (k : str) :
  Fix.fix_emoji p = Ok (q, b) -> str_eqb k (lit "emoji") = false ->
  lookup k q = lookup k p.
Proof. unfold Fix.fix_emoji; intros H Hk; frame Hk. Qed.

Lemma fix_group_frame (p : dict) (k : str) :
  str_eqb k (lit "group") = false ->
  lookup k (fst (Fix.fix_group p)) = lookup k p.
Proof.
  intros Hk. unfold Fix.fix_group.
  repeat match goal with
  | |- context [match ?x with _ => _ end] => destruct x
  end; cbn [fst]; try reflexivity; apply lookup_set_other; exact Hk.
Qed.

Lemma fix_prompt_frame (p q : dict) (b : bool) (k : str) :
  Fix.fix_prompt p = Ok (q, b) -> str_eqb k (lit "prompt") = false ->
  lookup k q = lookup k p.
Proof. unfold Fix.fix_prompt; intros H Hk; frame Hk. Qed.

(** What each fix function leaves in its field. *)

Lemma fix_name_total (p : dict) :
  Fix.name_is_set p || is_str (get p (lit "prompt") (PStr [])) = true ->
  exists q b c name,
    Fix.fix_name p = Ok (q, b) /\ lookup (lit "name") q = Some (PStr (c :: name)).
Proof.
  unfold Fix.name_is_set, Fix.fix_name. intros H.
  assert (Hrepair :
    is_str (get p (lit "prompt") (PStr [])) = true ->
    exists q b c name,
      (new_name <- Fix._extract_name_from_content (get p (lit "prompt") (PStr [])) ;;
       match new_name with
       | Some (c :: n) => Ok (set (lit "name") (PStr (c :: n)) p, true)
       | _ => Ok (set (lit "name")
                    (PStr (lit "prompt-"
                           ++ py_str (get p (lit "id") (PStr (lit "unknown"))))) p,
                  true)
       end) = Ok (q, b)
      /\ lookup (lit "name") q = Some (PStr (c :: name))).
  { destruct (get p (lit "prompt") (PStr [])) as [| | | |s| |]; try discriminate.
    intros _. unfold Fix._extract_name_from_content.
    destruct (Fix.search_title true s) as [g|]; cbn [bind].
    - destruct (strip (Fix.sub_runs false (lower (strip g)))) as [|c n].
      + exists (set (lit "name")
                  (PStr (lit "prompt-"
                         ++ py_str (get p (lit "id") (PStr (lit "unknown"))))) p),
          true, 112,
          (lit "rompt-" ++ py_str (get p (lit "id") (PStr (lit "unknown")))).
        split; [reflexivity | exact (lookup_set_same _ _ _)].
      + exists (set (lit "name") (PStr (c :: n)) p), true, c, n.
        split; [reflexivity | apply lookup_set_same].
    - exists (set (lit "name")
                (PStr (lit "prompt-"
                       ++ py_str (get p (lit "id") (PStr (lit "unknown"))))) p),
        true, 112,
        (lit "rompt-" ++ py_str (get p (lit "id") (PStr (lit "unknown")))).
      split; [reflexivity | exact (lookup_set_same _ _ _)]. }
  destruct (get p (lit "name") (PStr [])) as [| | | |[|c name]| |] eqn:Hn;
    cbn [truthy is_str negb orb andb str_eqb] in H |- *;
    rewrite ?andb_false_r in H; rewrite ?orb_true_r; cbn [orb] in H;
    try (apply Hrepair; exact H).
  exists p, false, c, name. split; [reflexivity|].
  apply (get_some _ _ Hn). discriminate.
Qed.

Lemma fix_description_str (p : dict) :
  exists d, lookup (lit "description") (fst (Fix.fix_description p)) = Some (PStr d).
Proof.
  unfold Fix.fix_description.
  destruct (get p (lit "description") PNone) eqn:Hd; cbn [fst];
    try (eexists; apply lookup_set_same).
  exists s. apply (get_some _ _ Hd). discriminate.
Qed.

Lemma fix_emoji_total (p : dict) :
  Fix.emoji_is_text p = true ->
  exists q b c e,
    Fix.fix_emoji p = Ok (q, b) /\ lookup (lit "emoji") q = Some (PStr (c :: e)).
Proof.
  unfold Fix.emoji_is_text, Fix.fix_emoji. intros H.
  assert (Hgen : exists c e,
            Fix._generate_emoji (get p (lit "description") (PStr []))
              (get p (lit "name") (PStr [])) = c :: e).
  { unfold Fix._generate_emoji.
    pose proof (first_keyword_nonempty
                  (lower (py_str (get p (lit "description") (PStr [])) ++ lit " "
                          ++ py_str (get p (lit "name") (PStr []))))
                  EMOJI_FIXES_nonempty) as Hne.
    destruct (Fix.first_keyword _ _) as [|c e]; [contradiction|].
    exists c, e; reflexivity. }
  destruct Hgen as (gc & ge & Hgen).
  destruct (get p (lit "emoji") (PStr [])) as [| | | |[|c e]| |] eqn:He;
    cbn [truthy is_str negb orb str_eqb] in H |- *;
    try discriminate H;
    try (rewrite negb_true_iff in H; rewrite H);
    cbn [negb bind];
    try (eexists; exists true, gc, ge; rewrite Hgen;
         split; [reflexivity | apply lookup_set_same]).
  rewrite is_valid_emoji_str. cbn [bind].
  destruct ((length (c :: e) <=? 4)%nat && _); cbn [negb].
  - exists p, false, c, e. split; [reflexivity|].
    apply (get_some _ _ He). discriminate.
  - eexists; exists true, gc, ge; rewrite Hgen.
    split; [reflexivity | apply lookup_set_same].
Qed.

Lemma fix_group_nonempty (p : dict) :
  exists x l, lookup (lit "group") (fst (Fix.fix_group p)) = Some (PList (x :: l)).
Proof.
  unfold Fix.fix_group, Fix.general.
  destruct (get p (lit "group") PNone) as [| | | |g|[|y l]|] eqn:Hg; cbn [fst];
    try (eexists; eexists; apply lookup_set_same).
  destruct (Fix.filter_group (y :: l)) as [|x fixed] eqn:Hf; cbn [length Nat.eqb fst].
  - eexists; eexists; apply lookup_set_same.
  - destruct (negb _); cbn [fst].
    + eexists; eexists; apply lookup_set_same.
    + exists y, l. apply (get_some _ _ Hg). discriminate.
Qed.

Lemma fix_prompt_total (p : dict) (x : pyval) (l : list pyval) :
  (forall v, repr v <> []) ->
  lookup (lit "group") p = Some (PList (x :: l)) ->
  exists q b c s,
    Fix.fix_prompt p = Ok (q, b) /\ lookup (lit "prompt") q = Some (PStr (c :: s)).
Proof.
  intros Hrepr Hg. unfold Fix.fix_prompt, Fix._generate_minimal_frontmatter, get.
  rewrite Hg. cbn [truthy Fix.getitem0 bind].
  destruct (lookup (lit "prompt") p) as [v|] eqn:Hp.
  2:{ cbn [truthy str_eqb negb].
      eexists; exists true, 45; eexists.
      split; [reflexivity | exact (lookup_set_same _ _ _)]. }
  destruct (truthy v) eqn:Ht; cbn [negb].
  2:{ eexists; exists true, 45; eexists.
      split; [reflexivity | exact (lookup_set_same _ _ _)]. }
  pose proof (py_str_nonempty v Hrepr Ht) as Hne.
  destruct v as [| | | |s| |];
    try (destruct (py_str _) as [|c s'] eqn:Hs; [contradiction|];
         eexists; exists true, c, s'; split; [reflexivity|];
         rewrite <- Hs; apply lookup_set_same).
  destruct s as [|c s]; [discriminate Ht|].
  destruct (negb (startswith (lit "---") (strip (c :: s)))).
  - eexists; exists true, 45; eexists.
    split; [reflexivity | exact (lookup_set_same _ _ _)].
  - exists p, false, c, s. split; [reflexivity | exact Hp].
Qed.

(** The fields of the record the engine leaves of a [repairable] record *)
Lemma repair_fields (p : dict) (index : nat) :
  (forall v, repr v <> []) ->
  Fix.repairable p = true ->
  exists q n cn name d ce e x l cp s,
    Fix.fix_prompt_fixes p index = Ok (q, n)
    /\ (n <= 6)%nat
    /\ lookup (lit "id") q = Some (PStr (str_of_nat (index + 1)))
    /\ lookup (lit "name") q = Some (PStr (cn :: name))
    /\ lookup (lit "description") q = Some (PStr d)
    /\ lookup (lit "emoji") q = Some (PStr (ce :: e))
    /\ lookup (lit "group") q = Some (PList (x :: l))
    /\ lookup (lit "prompt") q = Some (PStr (cp :: s)).
Proof.
  intros Hrepr Hp. unfold Fix.repairable in Hp.
  apply andb_true_iff in Hp as [Hemoji Hname].
  unfold Fix.fix_prompt_fixes.
  pose proof (fix_id_frame p index) as F1.
  pose proof (fix_id_sets_id p index) as Hid.
  destruct (Fix.fix_id p index) as [p1 b1]; cbn [fst] in F1, Hid.
  apply get_some in Hid; [|discriminate].
  assert (Hname1 : Fix.name_is_set p1 || is_str (get p1 (lit "prompt") (PStr [])) = true).
  { unfold Fix.name_is_set, get in *. rewrite !F1 by reflexivity. exact Hname. }
  destruct (fix_name_total p1 Hname1) as (p2 & b2 & cn & name & E2 & Hn2).
  rewrite E2; cbn [bind].
  pose proof (fun k => @fix_name_frame p1 p2 b2 k E2) as F2.
  pose proof (fix_description_frame p2) as F3.
  destruct (fix_description_str p2) as (d & Hd3).
  destruct (Fix.fix_description p2) as [p3 b3]; cbn [fst] in F3, Hd3.
  assert (Hemoji3 : Fix.emoji_is_text p3 = true).
  { unfold Fix.emoji_is_text, get in *.
    rewrite F3, F2, F1 by reflexivity. exact Hemoji. }
  destruct (fix_emoji_total p3 Hemoji3) as (p4 & b4 & ce & e & E4 & He4).
  rewrite E4; cbn [bind].
  pose proof (fun k => @fix_emoji_frame p3 p4 b4 k E4) as F4.
  pose proof (fix_group_frame p4) as F5.
  destruct (fix_group_nonempty p4) as (x & l & Hg5).
  destruct (Fix.fix_group p4) as [p5 b5]; cbn [fst] in F5, Hg5.
  destruct (fix_prompt_total p5 Hrepr Hg5) as (p6 & b6 & cp & s & E6 & Hp6).
  rewrite E6; cbn [bind].
  pose proof (fun k => @fix_prompt_frame p5 p6 b6 k E6) as F6.
  assert (L1 : lookup (lit "id") p6 = Some (PStr (str_of_nat (index + 1))))
    by (rewrite F6, F5, F4, F3, F2 by reflexivity; exact Hid).
  assert (L2 : lookup (lit "name") p6 = Some (PStr (cn :: name)))
    by (rewrite F6, F5, F4, F3 by reflexivity; exact Hn2).
  assert (L3 : lookup (lit "description") p6 = Some (PStr d))
    by (rewrite F6, F5, F4 by reflexivity; exact Hd3).
  assert (L4 : lookup (lit "emoji") p6 = Some (PStr (ce :: e)))
    by (rewrite F6, F5 by reflexivity; exact He4).
  assert (L5 : lookup (lit "group") p6 = Some (PList (x :: l)))
    by (rewrite F6 by reflexivity; exact Hg5).
  exists p6, (Fix.count b1 + Fix.count b2 + Fix.count b3 + Fix.count b4
              + Fix.count b5 + Fix.count b6)%nat, cn, name, d, ce, e, x, l, cp, s.
  split; [reflexivity|].
  split; [destruct b1, b2, b3, b4, b5, b6; cbn; lia|].
  repeat split; assumption.
Qed.


(** X10: on a [repairable] record (the emoji is a string or falsy, and the
    name is a non-empty string or the prompt is a string or absent) no fix
    function raises, at most six fixes are applied, and the record the
    engine leaves has the six fields with the types the validator asks for:
    the id is the decimal string of the position, name, emoji and prompt
    are non-empty strings, the description is a string and the group is a
    non-empty list. [repr] is taken never to return the empty string. *)
Theorem repair_completes (p : dict) (index : nat) :
  (forall v, repr v <> []) ->
  Fix.repairable p = true ->
  exists q n,
    Fix.fix_prompt_fixes p index = Ok (q, n)
    /\ (n <= 6)%nat
    /\ Validate.well_typed q = true
    /\ lookup (lit "id") q = Some (PStr (str_of_nat (index + 1)))
    /\ exists c name, lookup (lit "name") q = Some (PStr (c :: name)).
Proof.
  intros Hrepr Hp.
  destruct (repair_fields p index Hrepr Hp)
    as (q & n & cn & name & d & ce & e & x & l & cp & s
        & E & Hn & L1 & L2 & L3 & L4 & L5 & L6).
  exists q, n. split; [exact E|]. split; [exact Hn|].
  split; [unfold Validate.well_typed; rewrite L1, L2, L3, L4, L5, L6; reflexivity|].
  split; [exact L1 | exists cn, name; exact L2].
Qed.

End RepairRecord.

(** ** What the engine leaves can be written

    No fix function brings a surrogate into a record: what it writes is a
    literal, a decimal string, or made of characters the record already
    held. [str.lower] and [repr] are taken to bring none either. *)

Lemma no_surrogate_cons (c : Z) (s : str) :
  no_surrogate (c :: s) = no_surrogate [c] && no_surrogate s.
Proof. unfold no_surrogate. cbn [forallb]. rewrite andb_true_r. reflexivity. Qed.

Lemma no_surrogate_step (c : Z) (s : str) :
  no_surrogate (c :: s)
  = negb ((0xD800 <=? c) && (c <=? 0xDFFF)) && no_surrogate s.
Proof. reflexivity. Qed.

Lemma no_surrogate_app (a b : str) :
  no_surrogate (a ++ b) = no_surrogate a && no_surrogate b.
Proof. apply forallb_app. Qed.

Ltac surrogates :=
  repeat first [ rewrite no_surrogate_step | rewrite no_surrogate_app ].

Lemma no_surrogate_lit (s : string) : no_surrogate (lit s) = true.
Proof.
  unfold lit, no_surrogate. rewrite forallb_forall. intros c Hc.
  apply in_map_iff in Hc as (a & <- & _).
  pose proof (N_ascii_bounded a) as Ha.
  destruct (0xD800 <=? Z.of_N (N_of_ascii a)) eqn:E; [|reflexivity].
  apply Z.leb_le in E. lia.
Qed.

Lemma no_surrogate_str_of_Z (z : Z) : no_surrogate (str_of_Z z) = true.
Proof.
  unfold str_of_Z, str_of_nat.
  destruct (z <? 0); [rewrite no_surrogate_app|]; rewrite !no_surrogate_lit;
    reflexivity.
Qed.

Lemma no_surrogate_strip (s : str) :
  no_surrogate s = true -> no_surrogate (strip s) = true.
Proof.
  unfold no_surrogate. rewrite !forallb_forall, <- !Forall_forall.
  apply Forall_strip.
Qed.

Lemma no_surrogate_line_of (s : str) :
  no_surrogate s = true -> no_surrogate (Fix.line_of s) = true.
Proof.
  induction s as [|c s IH]; [reflexivity|].
  rewrite no_surrogate_cons. intros H. apply andb_true_iff in H as [Hc Hs].
  cbn [Fix.line_of]. destruct (c =? NL); [reflexivity|].
  rewrite no_surrogate_cons, Hc. exact (IH Hs).
Qed.

Lemma no_surrogate_ws_plus (s : str) :
  no_surrogate s = true ->
  Forall (fun r => no_surrogate r = true) (Fix.ws_plus s).
Proof.
  induction s as [|c s IH]; intros H; cbn [Fix.ws_plus]; [constructor|].
  rewrite no_surrogate_cons in H. apply andb_true_iff in H as [_ Hs].
  destruct (isspace c); [|constructor].
  apply Forall_app. split; [exact (IH Hs)|].
  constructor; [exact Hs | constructor].
Qed.

Lemma no_surrogate_title_at (s g : str) :
  no_surrogate s = true -> Fix.title_at s = Some g -> no_surrogate g = true.
Proof.
  intros Hs H. unfold Fix.title_at in H.
  apply first_some_In in H as (r & Hin & Hr).
  apply no_surrogate_ws_plus in Hs. rewrite Forall_forall in Hs.
  apply Hs, no_surrogate_line_of in Hin.
  destruct (Fix.line_of r); [discriminate Hr|].
  injection Hr as <-. exact Hin.
Qed.

Lemma no_surrogate_search_title (s : str) :
  forall bol g,
  no_surrogate s = true -> Fix.search_title bol s = Some g ->
  no_surrogate g = true.
Proof.
  induction s as [|c s IH]; intros bol g Hs H; cbn [Fix.search_title] in H;
    [discriminate H|].
  rewrite no_surrogate_cons in Hs. apply andb_true_iff in Hs as [_ Hs].
  destruct (bol && (c =? 35)).
  - destruct (Fix.title_at s) as [g'|] eqn:E.
    + injection H as <-. eapply no_surrogate_title_at; eassumption.
    + eapply IH; eassumption.
  - eapply IH; eassumption.
Qed.

Lemma no_surrogate_sub_runs (s : str) :
  forall in_run,
  no_surrogate s = true -> no_surrogate (Fix.sub_runs in_run s) = true.
Proof.
  induction s as [|c s IH]; intros in_run Hs; [reflexivity|].
  rewrite no_surrogate_cons in Hs. apply andb_true_iff in Hs as [Hc Hs].
  cbn [Fix.sub_runs]. destruct (isspace c || (c =? 95)).
  - destruct in_run; [apply IH; exact Hs|].
    rewrite no_surrogate_cons, (IH true Hs). reflexivity.
  - rewrite no_surrogate_cons, Hc. apply IH; exact Hs.
Qed.

Lemma no_surrogate_first_keyword (table : list (str * str)) (text : str) :
  Forall (fun rule => no_surrogate (snd rule) = true) table ->
  no_surrogate (Fix.first_keyword table text) = true.
Proof.
  induction 1 as [|[pattern emoji] table He _ IH]; cbn [Fix.first_keyword];
    [reflexivity|].
  destruct (contains pattern text); [exact He | exact IH].
Qed.

Lemma EMOJI_FIXES_no_surrogate :
  Forall (fun rule => no_surrogate (snd rule) = true) Fix.EMOJI_FIXES.
Proof. repeat constructor. Qed.

Lemma encodable_lookup (p : dict) (k : str) (v : pyval) :
  utf8_encodable (PDict p) = true -> lookup k p = Some v ->
  utf8_encodable v = true.
Proof.
  induction p as [|[k' v'] p IH]; cbn [utf8_encodable forallb lookup fst snd].
  - intros _ H; discriminate H.
  - intros H. apply andb_true_iff in H as [Hkv Hp].
    apply andb_true_iff in Hkv as [_ Hv].
    destruct (str_eqb k k'); [intros [= <-]; exact Hv | apply IH; exact Hp].
Qed.

Lemma encodable_get (p : dict) (k : str) (dflt : pyval) :
  utf8_encodable (PDict p) = true -> utf8_encodable dflt = true ->
  utf8_encodable (get p k dflt) = true.
Proof.
  intros Hp Hd. unfold get.
  destruct (lookup k p) eqn:E; [eapply encodable_lookup; eassumption | exact Hd].
Qed.

Lemma encodable_set (p : dict) (k : str) (v : pyval) :
  no_surrogate k = true -> utf8_encodable v = true ->
  utf8_encodable (PDict p) = true ->
  utf8_encodable (PDict (set k v p)) = true.
Proof.
  intros Hk Hv.
  induction p as [|[k' v'] p IH]; cbn [set utf8_encodable forallb fst snd].
  - intros _. rewrite Hk, Hv. reflexivity.
  - intros H. apply andb_true_iff in H as [Hkv Hp].
    apply andb_true_iff in Hkv as [Hk' Hv'].
    destruct (str_eqb k k'); cbn [utf8_encodable forallb fst snd].
    + rewrite Hk', Hv. exact Hp.
    + rewrite Hk', Hv'. exact (IH Hp).
Qed.

Lemma filter_group_writable (group : list pyval) :
  forallb utf8_encodable group = true ->
  forallb utf8_encodable (Fix.filter_group group) = true.
Proof.
  induction group as [|x group IH]; [reflexivity|].
  cbn [forallb]. intros H. apply andb_true_iff in H as [Hx Hg].
  destruct x; cbn [Fix.filter_group]; try (apply IH; exact Hg).
  destruct (negb _); [|apply IH; exact Hg].
  cbn [forallb utf8_encodable]. rewrite (IH Hg), andb_true_r.
  apply no_surrogate_strip. exact Hx.
Qed.

Section Writable.
Context {B : Builtins}.
Hypothesis lower_no_surrogate :
  forall s, no_surrogate s = true -> no_surrogate (lower s) = true.
Hypothesis repr_no_surrogate :
  forall v, utf8_encodable v = true -> no_surrogate (repr v) = true.

Lemma no_surrogate_py_str (v : pyval) :
  utf8_encodable v = true -> no_surrogate (py_str v) = true.
Proof.
  destruct v as [|[|]|z|f|s|l|d]; cbn [py_str]; intros H;
    try reflexivity; try apply no_surrogate_str_of_Z; try exact H;
    apply repr_no_surrogate; exact H.
Qed.

Ltac written Hp :=
  apply encodable_set;
  [ reflexivity
  | lazymatch goal with
    | |- utf8_encodable (PStr ?s) = true => change (no_surrogate s = true)
    | |- utf8_encodable (PList ?l) = true =>
        change (forallb utf8_encodable l = true)
    end
  | exact Hp ].

Lemma fix_id_writable (p : dict) (index : nat) :
  utf8_encodable (PDict p) = true ->
  utf8_encodable (PDict (fst (Fix.fix_id p index))) = true.
Proof.
  intros Hp. unfold Fix.fix_id.
  destruct (negb _); cbn [fst].
  - written Hp. apply no_surrogate_lit.
  - destruct (is_int _); cbn [fst]; [|exact Hp].
    written Hp. apply no_surrogate_py_str, encodable_get; [exact Hp | reflexivity].
Qed.

Lemma fix_name_writable (p q : dict) (b : bool) :
  utf8_encodable (PDict p) = true -> Fix.fix_name p = Ok (q, b) ->
  utf8_encodable (PDict q) = true.
Proof.
  intros Hp. unfold Fix.fix_name, Fix._extract_name_from_content.
  assert (Hpid : no_surrogate
                   (lit "prompt-"
                    ++ py_str (get p (lit "id") (PStr (lit "unknown")))) = true).
  { rewrite no_surrogate_app, no_surrogate_lit.
    apply no_surrogate_py_str, encodable_get; [exact Hp | reflexivity]. }
  destruct (negb _ || negb _); [|intros [= <- _]; exact Hp].
  assert (Hc : utf8_encodable (get p (lit "prompt") (PStr [])) = true)
    by (apply encodable_get; [exact Hp | reflexivity]).
  destruct (get p (lit "prompt") (PStr [])) as [| | | |s| |]; cbn [bind];
    try discriminate.
  destruct (Fix.search_title true s) as [g|] eqn:Eg; cbn [bind].
  - destruct (strip _) as [|c n] eqn:En; intros [= <- _]; written Hp;
      [exact Hpid|].
    rewrite <- En.
    apply no_surrogate_strip, no_surrogate_sub_runs, lower_no_surrogate,
      no_surrogate_strip.
    eapply no_surrogate_search_title; [exact Hc | exact Eg].
  - intros [= <- _]. written Hp. exact Hpid.
Qed.

Lemma fix_description_writable (p : dict) :
  utf8_encodable (PDict p) = true ->
  utf8_encodable (PDict (fst (Fix.fix_description p))) = true.
Proof.
  intros Hp. unfold Fix.fix_description.
  assert (Hd : utf8_encodable (get p (lit "description") PNone) = true)
    by (apply encodable_get; [exact Hp | reflexivity]).
  destruct (get p (lit "description") PNone); cbn [fst]; try exact Hp;
    written Hp; try reflexivity; apply no_surrogate_py_str; exact Hd.
Qed.

Lemma fix_emoji_writable (p q : dict) (b : bool) :
  utf8_encodable (PDict p) = true -> Fix.fix_emoji p = Ok (q, b) ->
  utf8_encodable (PDict q) = true.
Proof.
  intros Hp. unfold Fix.fix_emoji.
  destruct (if negb _ then _ else _) as [valid|]; cbn [bind]; [|discriminate].
  destruct (negb valid); intros [= <- _]; [|exact Hp].
  written Hp. unfold Fix._generate_emoji.
  apply no_surrogate_first_keyword, EMOJI_FIXES_no_surrogate.
Qed.

Lemma fix_group_writable (p : dict) :
  utf8_encodable (PDict p) = true ->
  utf8_encodable (PDict (fst (Fix.fix_group p))) = true.
Proof.
  intros Hp. unfold Fix.fix_group, Fix.general.
  assert (Hg : utf8_encodable (get p (lit "group") PNone) = true)
    by (apply encodable_get; [exact Hp | reflexivity]).
  destruct (get p (lit "group") PNone) as [| | | |g|[|y l]|]; cbn [fst];
    try (written Hp; reflexivity).
  - written Hp. cbn [forallb utf8_encodable]. rewrite andb_true_r. exact Hg.
  - destruct (_ =? 0)%nat; cbn [fst]; [written Hp; reflexivity|].
    destruct (negb _); cbn [fst]; [|exact Hp].
    written Hp. apply filter_group_writable. exact Hg.
Qed.

Lemma frontmatter_writable (name description group : pyval) (yaml : str) :
  utf8_encodable description = true -> utf8_encodable group = true ->
  Fix._generate_minimal_frontmatter name description group = Ok yaml ->
  no_surrogate yaml = true.
Proof.
  intros Hd Hg. unfold Fix._generate_minimal_frontmatter.
  assert (Hcat : forall c,
            (if truthy group then Fix.getitem0 group
             else Ok (PStr (lit "General"))) = Ok c ->
            utf8_encodable c = true).
  { intros c. destruct (truthy group); [|intros [= <-]; reflexivity].
    destruct group as [| | | |[|ch s]|[|x l]|]; cbn [Fix.getitem0];
      try discriminate; intros [= <-].
    - cbn [utf8_encodable] in Hg |- *. rewrite no_surrogate_cons in Hg.
      apply andb_true_iff in Hg as [H _]. exact H.
    - cbn [utf8_encodable forallb] in Hg.
      apply andb_true_iff in Hg as [H _]. exact H. }
  destruct (if truthy group then _ else _) as [c|]; cbn [bind]; [|discriminate].
  specialize (Hcat c eq_refl). intros [= <-].
  surrogates.
  rewrite (no_surrogate_py_str _ Hd), (no_surrogate_py_str _ Hcat).
  reflexivity.
Qed.

Lemma fix_prompt_writable (p q : dict) (b : bool) :
  utf8_encodable (PDict p) = true -> Fix.fix_prompt p = Ok (q, b) ->
  utf8_encodable (PDict q) = true.
Proof.
  intros Hp. unfold Fix.fix_prompt.
  assert (Hc : utf8_encodable (get p (lit "prompt") (PStr [])) = true)
    by (apply encodable_get; [exact Hp | reflexivity]).
  assert (Hn : utf8_encodable (get p (lit "name") (PStr [])) = true)
    by (apply encodable_get; [exact Hp | reflexivity]).
  assert (Hd : utf8_encodable (get p (lit "description") (PStr [])) = true)
    by (apply encodable_get; [exact Hp | reflexivity]).
  assert (Hg : utf8_encodable (get p (lit "group") Fix.general) = true)
    by (apply encodable_get; [exact Hp | reflexivity]).
  assert (Hs : no_surrogate (py_str (get p (lit "prompt") (PStr []))) = true)
    by (apply no_surrogate_py_str; exact Hc).
  destruct (negb (truthy _)).
  - destruct (Fix._generate_minimal_frontmatter _ _ _) as [yaml|] eqn:Ey;
      cbn [bind]; [|discriminate].
    intros [= <- _]. written Hp.
    surrogates.
    rewrite (@frontmatter_writable _ _ _ _ Hd Hg Ey), (no_surrogate_py_str _ Hn).
    reflexivity.
  - destruct (get p (lit "prompt") (PStr [])) as [| | | |s| |];
      try (intros [= <- _]; written Hp; exact Hs).
    destruct (negb (startswith _ _)); [|intros [= <- _]; exact Hp].
    destruct (Fix._generate_minimal_frontmatter _ _ _) as [yaml|] eqn:Ey;
      cbn [bind]; [|discriminate].
    intros [= <- _]. written Hp.
    surrogates. rewrite (@frontmatter_writable _ _ _ _ Hd Hg Ey). exact Hc.
Qed.

Lemma fix_prompt_fixes_writable (p q : dict) (index n : nat) :
  utf8_encodable (PDict p) = true -> Fix.fix_prompt_fixes p index = Ok (q, n) ->
  utf8_encodable (PDict q) = true.
Proof.
  intros Hp. unfold Fix.fix_prompt_fixes.
  pose proof (fix_id_writable p index Hp) as H1.
  destruct (Fix.fix_id p index) as [p1 b1]; cbn [fst] in H1.
  destruct (Fix.fix_name p1) as [[p2 b2]|] eqn:E2; cbn [bind]; [|discriminate].
  pose proof (fix_name_writable _ H1 E2) as H2.
  pose proof (fix_description_writable p2 H2) as H3.
  destruct (Fix.fix_description p2) as [p3 b3]; cbn [fst] in H3.
  destruct (Fix.fix_emoji p3) as [[p4 b4]|] eqn:E4; cbn [bind]; [|discriminate].
  pose proof (fix_emoji_writable _ H3 E4) as H4.
  pose proof (fix_group_writable p4 H4) as H5.
  destruct (Fix.fix_group p4) as [p5 b5]; cbn [fst] in H5.
  destruct (Fix.fix_prompt p5) as [[p6 b6]|] eqn:E6; cbn [bind]; [|discriminate].
  intros [= <- _]. exact (fix_prompt_writable _ H5 E6).
Qed.

Lemma fix_loop_writable (prompts : list dict) :
  forall index out n,
  utf8_writable prompts = true -> Fix.fix_loop index prompts = Ok (out, n) ->
  utf8_writable out = true.
Proof.
  unfold utf8_writable.
  induction prompts as [|p ps IH]; intros index out n Hw; cbn [Fix.fix_loop].
  - intros [= <- _]. reflexivity.
  - cbn [forallb] in Hw. apply andb_true_iff in Hw as [Hp Hps].
    destruct (Fix.fix_prompt_fixes p index) as [[q k]|] eqn:Eq; cbn [bind];
      [|discriminate].
    destruct (Fix.fix_loop (S index) ps) as [[qs m]|] eqn:El; cbn [bind];
      [|discriminate].
    intros [= <- _]. cbn [forallb].
    rewrite (fix_prompt_fixes_writable _ _ Hp Eq), (IH _ _ _ Hps El).
    reflexivity.
Qed.

End Writable.

(** ** The run of [fix_file] *)

Section RepairFile.
Context {B : Builtins}.


Lemma fix_file_dry_run (prompts out : list dict) (n : nat) :
  Fix.fix_loop 0 prompts = Ok (out, n) ->
  Fix.fix_file true prompts = Ok (out, n).
Proof.
  unfold Fix.fix_file. destruct prompts as [|p ps]; [auto|].
  intros ->. reflexivity.
Qed.

Lemma fix_file_write (prompts out : list dict) (n : nat) :
  Fix.fix_loop 0 prompts = Ok (out, n) ->
  Fix.fix_file false prompts
  = if utf8_writable out then Ok (out, n) else Raise UnicodeEncodeError.
Proof.
  unfold Fix.fix_file. destruct prompts as [|p ps].
  - intros [= <- <-]. reflexivity.
  - intros ->. reflexivity.
Qed.






End RepairFile.

(** ** Repair followed by validation, on repairable records *)

Section RepairValidate.
Context {B : Builtins}.

Lemma errors_flat_map (f : dict -> list Validate.ValidationIssue) (l : list dict) :
  Forall (fun q => Validate.errors (f q) = []) l ->
  Validate.errors (flat_map f l) = [].
Proof.
  induction 1 as [|q l Hq _ IH]; [reflexivity|].
  cbn [flat_map]. apply errors_app. split; assumption.
Qed.

Lemma for_each_no_error (f : dict -> result (list Validate.ValidationIssue))
    (l : list dict) :
  Forall (fun q => exists issues, f q = Ok issues /\ Validate.errors issues = []) l ->
  exists issues, Validate.for_each f l = Ok issues /\ Validate.errors issues = [].
Proof.
  induction 1 as [|q l (iq & Eq & Hq) _ (il & El & Hl)].
  - exists []. split; reflexivity.
  - cbn [Validate.for_each]. rewrite Eq, El. cbn [bind].
    eexists. split; [reflexivity|]. apply errors_app. split; assumption.
Qed.

(** The five checks other than the id check raise no error on a
    [well_typed] record. *)
Lemma well_typed_no_error (verbose : bool) (q : dict) :
  Validate.well_typed q = true ->
  Validate.errors (Validate.check_required_prompt q) = []
  /\ Validate.errors (Validate.check_types_prompt q) = []
  /\ (exists l, Validate.check_emoji_prompt verbose q = Ok l
                /\ Validate.errors l = [])
  /\ Validate.errors (Validate.check_group_prompt q) = []
  /\ (exists l, Validate.check_prompt_prompt q = Ok l
                /\ Validate.errors l = []).
Proof.
  unfold Validate.well_typed. intros H.
  destruct (lookup (lit "id") q) as [[| | | |i| |]|] eqn:L1; try discriminate H.
  destruct (lookup (lit "name") q) as [[| | | |n| |]|] eqn:L2; try discriminate H.
  destruct (lookup (lit "description") q) as [[| | | |d| |]|] eqn:L3;
    try discriminate H.
  destruct (lookup (lit "emoji") q) as [[| | | |[|ce e]| |]|] eqn:L4;
    try discriminate H.
  destruct (lookup (lit "group") q) as [[| | | | |[|x l]|]|] eqn:L5;
    try discriminate H.
  destruct (lookup (lit "prompt") q) as [[| | | |[|cp s]| |]|] eqn:L6;
    try discriminate H.
  split; [|split; [|split; [|split]]].
  - apply required_no_error. unfold Validate.required_fields, has_key.
    cbn [forallb]. rewrite L1, L2, L3, L4, L5, L6. reflexivity.
  - unfold Validate.check_types_prompt.
    rewrite !errors_app, !type_check_no_error, L1, L2, L3, L4, L5, L6.
    repeat split; reflexivity.
  - apply (emoji_check_no_error verbose q L4 L3). discriminate.
  - unfold Validate.check_group_prompt. rewrite L5.
    apply errors_app. split; [reflexivity | apply group_items_no_error].
  - apply (prompt_check_no_error q L6). discriminate.
Qed.

Lemma fix_loop_total (prompts : list dict) :
  (forall v, repr v <> []) ->
  forallb Fix.repairable prompts = true ->
  forall index,
  exists out n,
    Fix.fix_loop index prompts = Ok (out, n)
    /\ length out = length prompts
    /\ (n <= 6 * length prompts)%nat
    /\ Forall (fun q => Validate.well_typed q = true) out.
Proof.
  intros Hrepr. induction prompts as [|p ps IH]; intros Hall index.
  - exists [], 0%nat. repeat split; constructor.
  - cbn [forallb] in Hall. apply andb_true_iff in Hall as [Hp Hps].
    destruct (repair_fields p index Hrepr Hp)
      as (q & n & cn & name & d & ce & e & x & l & cp & s
          & E & Hn & L1 & L2 & L3 & L4 & L5 & L6).
    destruct (IH Hps (S index)) as (out & m & El & Hlen & Hm & Hwt).
    cbn [Fix.fix_loop]. rewrite E; cbn [bind]. rewrite El; cbn [bind].
    exists (q :: out), (n + m)%nat.
    split; [reflexivity|]. split; [simpl; rewrite Hlen; reflexivity|].
    split; [simpl; lia|].
    constructor; [|exact Hwt].
    unfold Validate.well_typed. rewrite L1, L2, L3, L4, L5, L6. reflexivity.
Qed.

(** X11: on a collection of [repairable] records no fix function raises.
    The dry run of [fix_file] returns; the run that writes returns the same
    collection when no string of it holds a surrogate and raises
    [UnicodeEncodeError] otherwise, and it holds none when the input held
    none and [str.lower] and [repr] bring none. The collection has one
    record per input record, at most six fixes are applied per record, and
    on it the validator completes and reports no error-level issue
    (warnings and infos may remain). It needs [isdigit] to accept a decimal
    string and [repr] never to return the empty string. *)
Theorem repair_then_validate (verbose : bool) (prompts : list dict) :
  (forall k, isdigit (str_of_nat k) = true) ->
  (forall v, repr v <> []) ->
  forallb Fix.repairable prompts = true ->
  exists out n issues,
    Fix.fix_file true prompts = Ok (out, n)
    /\ Fix.fix_file false prompts
       = (if utf8_writable out then Ok (out, n) else Raise UnicodeEncodeError)
    /\ ((forall s, no_surrogate s = true -> no_surrogate (lower s) = true) ->
        (forall v, utf8_encodable v = true -> no_surrogate (repr v) = true) ->
        utf8_writable prompts = true ->
        Fix.fix_file false prompts = Ok (out, n))
    /\ length out = length prompts
    /\ (n <= 6 * length prompts)%nat
    /\ Validate.validate_file verbose out = Ok issues
    /\ Validate.errors issues = [].
Proof.
  intros Hdigit Hrepr Hall.
  destruct (fix_loop_total prompts Hrepr Hall 0) as (out & n & E & Hlen & Hn & Hwt).
  pose proof (fix_loop_sequential _ _ E) as Hids. rewrite <- Hlen in Hids.
  destruct (id_loop_sequential out Hdigit (start := 0%nat) Hids (Forall_nil _))
    as (added & Ei & Hnil).
  assert (Hchk : forall q, In q out ->
            Validate.errors (Validate.check_required_prompt q) = []
            /\ Validate.errors (Validate.check_types_prompt q) = []
            /\ (exists l, Validate.check_emoji_prompt verbose q = Ok l
                          /\ Validate.errors l = [])
            /\ Validate.errors (Validate.check_group_prompt q) = []
            /\ (exists l, Validate.check_prompt_prompt q = Ok l
                          /\ Validate.errors l = [])).
  { intros q Hq. apply well_typed_no_error.
    rewrite Forall_forall in Hwt. exact (Hwt q Hq). }
  destruct (for_each_no_error (Validate.check_emoji_prompt verbose) (l := out))
    as (emojis & Ee & He).
  { apply Forall_forall. intros q Hq. apply (Hchk q Hq). }
  destruct (for_each_no_error Validate.check_prompt_prompt (l := out))
    as (contents & Ec & Hc).
  { apply Forall_forall. intros q Hq. apply (Hchk q Hq). }
  exists out, n,
    (match out with
     | [] => []
     | _ => Validate.check_required_fields out ++ Validate.check_field_types out
            ++ [] ++ emojis ++ Validate.check_group_format out ++ contents
     end).
  split; [exact (fix_file_dry_run _ E)|].
  split; [exact (fix_file_write _ E)|].
  split.
  { intros Hlower Hr Hw.
    rewrite (fix_file_write _ E), (fix_loop_writable Hlower Hr _ _ Hw E).
    reflexivity. }
  split; [exact Hlen|]. split; [exact Hn|].
  destruct out as [|q0 out']; [split; reflexivity|].
  set (out := q0 :: out') in *.
  split.
  - change (Validate.validate_file verbose out)
      with (ids <- Validate.check_id_sequence out ;;
            emojis <- Validate.check_emoji_validity verbose out ;;
            contents <- Validate.check_prompt_content out ;;
            Ok (Validate.check_required_fields out
                ++ Validate.check_field_types out ++ ids ++ emojis
                ++ Validate.check_group_format out ++ contents)).
    unfold Validate.check_id_sequence, Validate.check_emoji_validity,
      Validate.check_prompt_content.
    rewrite Ei; cbn [bind]. rewrite Hnil, Ee; cbn [bind].
    rewrite Ec; cbn [bind]. reflexivity.
  - rewrite !errors_app. repeat split; auto.
    + apply errors_flat_map, Forall_forall. intros q Hq. apply (Hchk q Hq).
    + apply errors_flat_map, Forall_forall. intros q Hq. apply (Hchk q Hq).
    + apply errors_flat_map, Forall_forall. intros q Hq. apply (Hchk q Hq).
Qed.

End RepairValidate.

(** ** The name taken from a heading *)



(** ** Fix functions that are no-ops on their own output *)

Section Idempotence.
Context {B : Builtins}.

Lemma fix_name_result (p q : dict) (b : bool) :
  Fix.fix_name p = Ok (q, b) ->
  exists c n, lookup (lit "name") q = Some (PStr (c :: n)).
Proof.
  unfold Fix.fix_name.
  destruct (get p (lit "name") (PStr [])) as [| | | |[|c n]| |] eqn:Hn;
    cbn [truthy is_str negb orb str_eqb]; rewrite ?orb_true_r;
    try (intros [= <- _]; exists c, n; apply (get_some _ _ Hn); discriminate);
    (destruct (Fix._extract_name_from_content _) as [[[|c' n']|]|];
     cbn [bind]; try discriminate; intros [= <- _];
     [exists 112; eexists; exact (lookup_set_same _ _ _)
     |exists c', n'; apply lookup_set_same
     |exists 112; eexists; exact (lookup_set_same _ _ _)]).
Qed.

(** X13: [fix_id], [fix_name] and [fix_description] change nothing when
    applied to their own output: the second application returns [False]
    and leaves the record as it is. *)
Theorem scalar_fixes_idempotent (p : dict) (index : nat) :
  Fix.fix_id (fst (Fix.fix_id p index)) index = (fst (Fix.fix_id p index), false)
  /\ Fix.fix_description (fst (Fix.fix_description p))
     = (fst (Fix.fix_description p), false)
  /\ (forall q b, Fix.fix_name p = Ok (q, b) -> Fix.fix_name q = Ok (q, false)).
Proof.
  split; [|split].
  - pose proof (fix_id_sets_id p index) as H.
    unfold Fix.fix_id at 1. rewrite H.
    cbn [Validate.eq_str is_int]. rewrite str_eqb_refl. reflexivity.
  - destruct (fix_description_str p) as (d & Hd).
    unfold Fix.fix_description at 1. unfold get. rewrite Hd. reflexivity.
  - intros q b H. destruct (fix_name_result _ H) as (c & n & Hn).
    unfold Fix.fix_name, get. rewrite Hn. reflexivity.
Qed.

Lemma filter_group_idempotent (l : list pyval) :
  Fix.filter_group (Fix.filter_group l) = Fix.filter_group l.
Proof.
  induction l as [|g l IH]; [reflexivity|].
  destruct g; simpl; try exact IH.
  destruct (str_eqb (strip s) []) eqn:E; simpl; [exact IH|].
  rewrite strip_idempotent, E. simpl. f_equal. exact IH.
Qed.

(** X14: [fix_group] changes nothing when applied to its own output, unless
    the group was a string that is empty or blank: that string is wrapped
    into a list by the first application and the list is replaced by the
    default at the second. *)
Theorem fix_group_idempotent (p : dict) :
  (forall g, get p (lit "group") PNone = PStr g -> strip g <> []) ->
  Fix.fix_group (fst (Fix.fix_group p)) = (fst (Fix.fix_group p), false).
Proof.
  intros Hblank.
  assert (Hgen : forall q,
            Fix.fix_group (set (lit "group") Fix.general q)
            = (set (lit "group") Fix.general q, false)).
  { intros q. unfold Fix.fix_group at 1, get. rewrite lookup_set_same.
    reflexivity. }
  assert (Hfix : forall q x l,
            lookup (lit "group") q = Some (PList (x :: l)) ->
            length (Fix.filter_group (x :: l)) = length (x :: l) ->
            Fix.fix_group q = (q, false)).
  { intros q x l Hq Hf. unfold Fix.fix_group, get. rewrite Hq, Hf.
    cbn [length Nat.eqb]. rewrite Nat.eqb_refl. reflexivity. }
  unfold Fix.fix_group at 2 3.
  destruct (get p (lit "group") PNone) as [| | | |g|[|y l]|] eqn:Hg; cbn [fst];
    try apply Hgen.
  - apply Hfix with (x := PStr g) (l := []); [apply lookup_set_same|].
    simpl. rewrite str_eqb_neq by (apply Hblank; reflexivity). reflexivity.
  - destruct (Fix.filter_group (y :: l)) as [|x fixed] eqn:Hf;
      cbn [length Nat.eqb]; [apply Hgen|].
    destruct (Nat.eqb (length fixed) (length l)) eqn:Hlen; cbn [negb fst].
    + apply Hfix with (x := y) (l := l).
      * apply (get_some _ _ Hg). discriminate.
      * rewrite Hf. apply Nat.eqb_eq in Hlen. simpl. rewrite Hlen. reflexivity.
    + apply Hfix with (x := x) (l := fixed); [apply lookup_set_same|].
      rewrite <- Hf, filter_group_idempotent. reflexivity.
Qed.

End Idempotence.

Section PromptIdempotence.
Context {B : Builtins}.

Lemma fix_prompt_keeps_frontmatter (q : dict) (r : str) :
  lookup (lit "prompt") q = Some (PStr (lit "---" ++ r)) ->
  Fix.fix_prompt q = Ok (q, false).
Proof.
  intros Hq. unfold Fix.fix_prompt, get. rewrite Hq.
  change (truthy (PStr (lit "---" ++ r))) with true. cbn [negb].
  rewrite strip_dashes. reflexivity.
Qed.

(** X15: when the prompt is a string, null or absent, [fix_prompt] changes
    nothing when applied to its own output: the frontmatter it writes
    begins with the delimiter its own test looks for. *)
Theorem fix_prompt_idempotent (p q : dict) (b : bool) :
  is_str (get p (lit "prompt") (PStr [])) = true
  \/ truthy (get p (lit "prompt") (PStr [])) = false ->
  Fix.fix_prompt p = Ok (q, b) ->
  Fix.fix_prompt q = Ok (q, false).
Proof.
  intros Htext H. pose proof H as H0. revert H.
  unfold Fix.fix_prompt, Fix._generate_minimal_frontmatter.
  destruct (truthy (get p (lit "prompt") (PStr []))) eqn:Ht; cbn [negb].
  - destruct Htext as [Hs|Hf]; [|discriminate Hf].
    destruct (get p (lit "prompt") (PStr [])) as [| | | |s| |]; try discriminate Hs.
    destruct (negb (startswith (lit "---") (strip s))).
    + destruct (if truthy _ then _ else _) as [category|]; cbn [bind];
        [|discriminate].
      intros [= <- _]. eapply fix_prompt_keeps_frontmatter.
      rewrite lookup_set_same, <- !app_assoc. reflexivity.
    + intros [= <- <-]. exact H0.
  - destruct (if truthy _ then _ else _) as [category|]; cbn [bind];
      [|discriminate].
    intros [= <- _]. eapply fix_prompt_keeps_frontmatter.
    rewrite lookup_set_same, <- !app_assoc. reflexivity.
Qed.

(** X16: the collection [compile_directory] returns passes the validator's
    id check without any issue, when [isdigit] accepts a decimal string. *)
Theorem compiled_ids_pass (md_files : list Compile.md_path) (out : list dict)
    (errors warnings : list str) :
  (forall k, isdigit (str_of_nat k) = true) ->
  Compile.compile_directory md_files = Ok (out, errors, warnings) ->
  Validate.check_id_sequence out = Ok [].
Proof.
  intros Hdigit. unfold Compile.compile_directory.
  destruct md_files as [|f fs]; [intros [= <- _ _]; reflexivity|].
  destruct (Compile.compile_loop (f :: fs) []) as [[compiled es]|];
    cbn [bind]; [|discriminate].
  intros [= <- _ _].
  destruct (assign_ids_spec compiled 0) as [Hids _].
  assert (Hlen : length (Compile.assign_ids 1 compiled) = length compiled).
  { rewrite <- (length_map (fun p => get p (lit "id") PNone)).
    fold (ids_of (Compile.assign_ids 1 compiled)). rewrite Hids.
    unfold sequential_ids. rewrite length_map, length_seq. reflexivity. }
  rewrite <- Hlen in Hids.
  destruct (id_loop_sequential _ Hdigit (start := 0%nat) Hids (Forall_nil _))
    as (added & E & Hnil).
  unfold Validate.check_id_sequence. rewrite E. cbn [bind]. rewrite Hnil.
  reflexivity.
Qed.

End PromptIdempotence.

(** ** The built-ins on ASCII text meet what the theorems ask of them *)

Lemma digits_of_uint (d : Decimal.uint) :
  forallb (fun c => (48 <=? c) && (c <=? 57)) (lit (NilZero.string_of_uint d)) = true.
Proof.
  assert (H : forall d, forallb (fun c => (48 <=? c) && (c <=? 57))
                          (lit (NilEmpty.string_of_uint d)) = true).
  { induction d0; simpl; auto. }
  destruct d; try apply (H (Decimal.D0 _)); try apply H; reflexivity.
Qed.

Lemma ascii_isdigit_str_of_nat (k : nat) :
  isdigit (Builtins := ascii_builtins) (str_of_nat k) = true.
Proof.
  cbn [isdigit ascii_builtins]. unfold ascii_isdigit.
  pose proof (str_of_nat_nonempty k) as Hne.
  destruct (str_of_nat k) as [|c s] eqn:E; [contradiction|].
  cbn [str_eqb negb andb]. rewrite <- E. apply digits_of_uint.
Qed.

Lemma ascii_repr_nonempty (v : pyval) :
  repr (Builtins := ascii_builtins) v <> [].
Proof.
  cbn [repr ascii_builtins]. destruct v; simpl; try discriminate.
  - destruct b; discriminate.
  - unfold str_of_Z. destruct (z <? 0); [discriminate|].
    apply str_of_nat_nonempty.
Qed.

Lemma ascii_lower_no_surrogate (s : str) :
  no_surrogate s = true ->
  no_surrogate (lower (Builtins := ascii_builtins) s) = true.
Proof.
  cbn [lower ascii_builtins]. unfold ascii_lower, no_surrogate.
  rewrite !forallb_forall. intros H c Hc.
  apply in_map_iff in Hc as (x & <- & Hx). specialize (H x Hx).
  destruct ((65 <=? x) && (x <=? 90)) eqn:E; [|exact H].
  apply andb_true_iff in E as [E1 E2]. apply Z.leb_le in E1, E2.
  destruct (0xD800 <=? x + 32) eqn:E3; [|reflexivity].
  apply Z.leb_le in E3. lia.
Qed.

Lemma no_surrogate_join_comma (l : list str) :
  Forall (fun x => no_surrogate x = true) l ->
  no_surrogate (join_comma l) = true.
Proof.
  induction 1 as [|x l Hx Hl IH]; [reflexivity|].
  destruct l as [|y l]; [exact Hx|].
  change (join_comma (x :: y :: l)) with (x ++ lit ", " ++ join_comma (y :: l)).
  rewrite !no_surrogate_app, Hx, IH. reflexivity.
Qed.

Lemma ascii_repr_no_surrogate :
  forall v, utf8_encodable v = true ->
  no_surrogate (repr (Builtins := ascii_builtins) v) = true.
Proof.
  cbn [repr ascii_builtins].
  fix IH 1. intros [|[|]|z|f|s|l|d] H; cbn [ascii_repr]; try reflexivity.
  - apply no_surrogate_str_of_Z.
  - rewrite !no_surrogate_app. cbn [utf8_encodable] in H. rewrite H. reflexivity.
  - rewrite !no_surrogate_app, !no_surrogate_lit, andb_true_r. cbn [andb].
    apply no_surrogate_join_comma. cbn [utf8_encodable] in H.
    induction l as [|x l IHl]; [constructor|].
    cbn [forallb] in H. apply andb_true_iff in H as [Hx Hl].
    cbn [map]. constructor; [apply IH; exact Hx | apply IHl; exact Hl].
  - rewrite !no_surrogate_app, !no_surrogate_lit, andb_true_r. cbn [andb].
    apply no_surrogate_join_comma. cbn [utf8_encodable] in H.
    induction d as [|[k x] d IHd]; [constructor|].
    cbn [forallb fst snd] in H. apply andb_true_iff in H as [Hkx Hd].
    apply andb_true_iff in Hkx as [Hk Hx].
    cbn [map fst snd]. constructor; [|apply IHd; exact Hd].
    rewrite !no_surrogate_app, !no_surrogate_lit, Hk, (IH x Hx). reflexivity.
Qed.

(** A record whose description holds a lone surrogate needs no fix: the
    dry run returns it, the run that writes raises. *)
Lemma fix_file_surrogate :
  Fix.fix_file (B := ascii_builtins) true [Examples.surrogate_description]
  = Ok ([Examples.surrogate_description], 0%nat)
  /\ Fix.fix_file (B := ascii_builtins) false [Examples.surrogate_description]
     = Raise UnicodeEncodeError.
Proof. split; vm_compute; reflexivity. Qed.

(** ** The further theorems at concrete inputs *)



Lemma simple_yaml_parse_raises_only_int_witness :
  exists frontmatter,
    Compile.simple_yaml_parse (B := ascii_builtins) Examples.yaml_with_list
    = Ok frontmatter.
Proof.
  apply (proj2 (@simple_yaml_parse_raises_only_int ascii_builtins
                  Examples.yaml_with_list)).
  intros value _. discriminate.
Defined.

Lemma simple_yaml_parse_prefers_lists_witness :
  exists frontmatter,
    Compile.simple_yaml_parse (B := ascii_builtins) Examples.yaml_with_list
    = Ok frontmatter
    /\ lookup (lit "category") frontmatter = Some (PList [PStr (lit "Development")])
    /\ lookup (lit "description") frontmatter = Some (PStr (lit "notes")).
Proof.
  edestruct (@simple_yaml_parse_prefers_lists ascii_builtins Examples.yaml_with_list)
    as (frontmatter & E & Hk);
    [vm_compute; reflexivity | vm_compute; reflexivity |].
  exists frontmatter. split; [exact E|].
  split; rewrite Hk; reflexivity.
Defined.

(** [compile_directory_records] on four paths: a document, a directory,
    a file that cannot be read and a second document. *)
Lemma compile_directory_records_witness :
  exists out errors warnings,
    Compile.compile_directory (B := ascii_builtins) Examples.md_files
    = Ok (out, errors, warnings)
    /\ (map (fun p => lookup (lit "name") p) out
        = [Some (PStr (lit "frontend-helper")); Some (PStr (lit "notes"))]
        /\ length out = 2%nat
        /\ ids_of out = [PStr (lit "1"); PStr (lit "2")]
        /\ length errors = 1%nat
        /\ warnings = []).
Proof.
  eexists; eexists; eexists. split; [vm_compute; reflexivity|].
  apply (@compile_directory_records ascii_builtins Examples.md_files).
  vm_compute; reflexivity.
Defined.

Lemma report_counts_every_issue_witness :
  exists issues,
    Validate.validate_file (B := ascii_builtins) true [Examples.list_emoji] = Ok issues
    /\ Validate.print_report issues = (1%nat, 0%nat, 1%nat)
    /\ length issues = 2%nat
    /\ Validate.exit_status issues = 1.
Proof.
  eexists. split; [vm_compute; reflexivity|].
  match goal with |- context [Validate.print_report ?l] => set (issues := l) end.
  pose proof (@report_counts_every_issue ascii_builtins true [Examples.list_emoji]
                issues) as H.
  destruct H as (Hsum & Hexit & _); [vm_compute; reflexivity|].
  split; [vm_compute; reflexivity|].
  split; [vm_compute; reflexivity|].
  apply Hexit. vm_compute. discriminate.
Defined.

Lemma sequential_ids_pass_witness :
  Validate.check_id_sequence (B := ascii_builtins)
    (Compile.assign_ids 1 [Examples.good "7"; Examples.good "9"])
  = Ok [].
Proof.
  apply (@sequential_ids_pass ascii_builtins).
  - exact ascii_isdigit_str_of_nat.
  - vm_compute; reflexivity.
Defined.

Lemma repair_completes_witness :
  exists q n,
    Fix.fix_prompt_fixes (B := ascii_builtins) Examples.scenario2 0 = Ok (q, n)
    /\ (n <= 6)%nat
    /\ Validate.well_typed q = true
    /\ lookup (lit "id") q = Some (PStr (str_of_nat (0 + 1)))
    /\ exists c name, lookup (lit "name") q = Some (PStr (c :: name)).
Proof.
  apply (@repair_completes ascii_builtins Examples.scenario2 0).
  - exact ascii_repr_nonempty.
  - reflexivity.
Defined.

Lemma repair_then_validate_witness :
  exists out n issues,
    Fix.fix_file (B := ascii_builtins) true [Examples.scenario2; Examples.no_emoji]
    = Ok (out, n)
    /\ Fix.fix_file (B := ascii_builtins) false
         [Examples.scenario2; Examples.no_emoji]
       = Ok (out, n)
    /\ length out = 2%nat
    /\ (n <= 6 * 2)%nat
    /\ Validate.validate_file (B := ascii_builtins) true out = Ok issues
    /\ Validate.errors issues = [].
Proof.
  destruct (@repair_then_validate ascii_builtins true
              [Examples.scenario2; Examples.no_emoji]
              ascii_isdigit_str_of_nat ascii_repr_nonempty eq_refl)
    as (out & n & issues & Hdry & _ & Hwrite & Hlen & Hn & Hv & He).
  exists out, n, issues.
  split; [exact Hdry|].
  split; [|repeat split; assumption].
  apply Hwrite;
    [exact ascii_lower_no_surrogate | exact ascii_repr_no_surrogate | reflexivity].
Defined.


Lemma scalar_fixes_idempotent_witness :
  exists q b,
    Fix.fix_name (B := ascii_builtins) Examples.scenario2 = Ok (q, b)
    /\ Fix.fix_name (B := ascii_builtins) q = Ok (q, false).
Proof.
  eexists; eexists. split; [vm_compute; reflexivity|].
  apply (proj2 (proj2 (@scalar_fixes_idempotent ascii_builtins Examples.scenario2 0))
           _ true).
  vm_compute; reflexivity.
Defined.

Lemma fix_group_idempotent_witness :
  Fix.fix_group (fst (Fix.fix_group Examples.scenario2))
  = (fst (Fix.fix_group Examples.scenario2), false).
Proof.
  apply fix_group_idempotent.
  intros g [= <-]. vm_compute. discriminate.
Defined.

Lemma fix_prompt_idempotent_witness :
  exists q,
    Fix.fix_prompt (B := ascii_builtins) Examples.bare_prompt = Ok (q, true)
    /\ Fix.fix_prompt (B := ascii_builtins) q = Ok (q, false).
Proof.
  eexists. split; [vm_compute; reflexivity|].
  apply (@fix_prompt_idempotent ascii_builtins Examples.bare_prompt _ true).
  - left. reflexivity.
  - vm_compute; reflexivity.
Defined.

Lemma compiled_ids_pass_witness :
  exists out errors warnings,
    Compile.compile_directory (B := ascii_builtins) Examples.md_files
    = Ok (out, errors, warnings)
    /\ Validate.check_id_sequence (B := ascii_builtins) out = Ok [].
Proof.
  eexists; eexists; eexists. split; [vm_compute; reflexivity|].
  eapply (@compiled_ids_pass ascii_builtins Examples.md_files).
  - exact ascii_isdigit_str_of_nat.
  - vm_compute; reflexivity.
Defined.
